(** * The ECIES envelope of rippled: src/ECIES.cpp

    A shallow embedding of [CKey::getECIESSecret], [makeHMAC],
    [CKey::encryptECIES], [CKey::decryptECIES] and the loop of the self-test
    [checkECIES], together with the part of
    OpenSSL's EVP layer (crypto/evp/evp_enc.c, padded CBC over a 16-byte
    block cipher) that decides how many bytes each call consumes, buffers
    and emits.  The one-way and keyed primitives themselves (the curve, SHA-256,
    HMAC-SHA256, the AES-256 block permutation) are a type class.

    Conventions.
    - an [unsigned char] is its value in [N]; a vector or a fixed-size
      integer container ([uint128], [uint256]) is a [list N];
    - a [size_t] is a [nat]; an [int] is a [Z], and every conversion from
      a [size_t] to an [int] goes through [to_int] (two's complement, 32 bits);
    - a read pointer into a vector is the suffix of the vector that starts
      there; a write pointer is the vector together with an offset;
    - a C++ exception is [Throw] of its message, a failed [assert] is [Abort],
      a store outside its buffer is [Undefined];
    - every call into OpenSSL, every [v.front()] and every byte position
      the comparison of the two MACs examines is logged, in program order,
      in the trace that a computation of type [M] carries. *)

From Stdlib Require Import String ZArith NArith List Lia Bool.
Import ListNotations.
Local Open Scope Z_scope.

(** ** Bytes, sizes and ints *)

Abbreviation byte := N.
Abbreviation bytes := (list N).

Definition ECIES_KEY_LENGTH : nat := Eval cbv in (256 / 8)%nat.
Definition ECIES_ENC_KEY_SIZE : nat := Eval cbv in (256 / 8)%nat.
Definition ECIES_ENC_BLK_SIZE : nat := Eval cbv in (128 / 8)%nat.
Definition ECIES_HMAC_SIZE : nat := Eval cbv in (256 / 8)%nat.
(** openssl/evp.h *)
Definition EVP_MAX_MD_SIZE : nat := 64.

Definition INT_MAX : Z := 2 ^ 31 - 1.

(** The longest plaintext whose buffer sizes all fit an [int]. *)
Definition max_plaintext_size : Z := INT_MAX - 64.

(** Conversion of an integer value to a 32-bit [int]. *)
Definition to_int (z : Z) : Z := (z + 2 ^ 31) mod 2 ^ 32 - 2 ^ 31.

(** ** Outcomes, traces and the monad *)

Inductive event : Type :=
| EvCall (fn : string)                 (* a call of the OpenSSL function [fn] *)
| EvFront (vec : string) (size : nat)  (* [vec.front()] on a vector of [size] elements *)
| EvCompare                            (* [operator!=] on two [uint256] *)
| EvByte (i : nat).                    (* the comparison examines byte [i] of its operands *)

Inductive outcome (A : Type) : Type :=
| Ok (a : A)
| Throw (what : string)
| Abort
| Undefined.

Arguments Ok {A} a.
Arguments Throw {A} what.
Arguments Abort {A}.
Arguments Undefined {A}.

Definition M (A : Type) : Type := (list event * outcome A)%type.

Definition trace {A} (m : M A) : list event := fst m.
Definition result {A} (m : M A) : outcome A := snd m.

Definition ret {A} (a : A) : M A := ([], Ok a).
Definition throw {A} (what : string) : M A := ([], Throw what).
Definition emit (e : event) : M unit := ([e], Ok tt).

Definition bind {A B} (m : M A) (f : A -> M B) : M B :=
  match m with
  | (t, Ok a) => let '(t', r) := f a in (t ++ t', r)
  | (t, Throw what) => (t, Throw what)
  | (t, Abort) => (t, Abort)
  | (t, Undefined) => (t, Undefined)
  end.

Notation "x <- m ;; k" := (bind m (fun x => k))
  (at level 61, m at next level, right associativity).
Notation "m ;;; k" := (bind m (fun _ => k))
  (at level 61, right associativity).

(** [assert(b)] of <cassert>. *)
Definition assert (b : bool) : M unit := if b then ret tt else ([], Abort).

(** [&(v.front())]: the address of the first element.  The standard defines
    it for a non-empty vector only; the event records the size it met. *)
Definition front (name : string) (v : bytes) : M bytes :=
  emit (EvFront name (length v)) ;;; ret v.

(** A store of [data] into [v] at offset [off] ([memcpy], or the output
    parameter of an OpenSSL call). *)
Definition write (v : bytes) (off : nat) (data : bytes) : M bytes :=
  if (off + length data <=? length v)%nat
  then ret (firstn off v ++ data ++ skipn (off + length data) v)
  else ([], Undefined).

(** [v.resize(n)]. *)
Definition resize (v : bytes) (n : nat) : bytes :=
  firstn n v ++ repeat 0%N (n - length v).

(** A freshly constructed vector has no spare capacity. *)
Definition capacity (v : bytes) : nat := length v.

(** The taxonomy of failures (section 7 of the specification) of the
    messages thrown by the code. *)
Inductive ErrorKind : Type :=
| MissingKeyError | DerivationError | MACComputationError | EntropyError
| CipherError | MalformedCiphertextError | DecryptionError
| BadPaddingError | AuthenticationError.

Definition error_kind (what : string) : ErrorKind :=
  if String.eqb what "missing key" then MissingKeyError
  else if String.eqb what "no private key" then MissingKeyError
  else if String.eqb what "ecdh key failed" then DerivationError
  else if String.eqb what "init hmac" then MACComputationError
  else if String.eqb what "update hmac" then MACComputationError
  else if String.eqb what "finalize hmac" then MACComputationError
  else if String.eqb what "insufficient entropy" then EntropyError
  else if String.eqb what "ciphertext too short" then MalformedCiphertextError
  else if String.eqb what "unable to extract hmac" then MalformedCiphertextError
  else if String.eqb what "unable to extract plaintext" then DecryptionError
  else if String.eqb what "plaintext had bad padding" then BadPaddingError
  else if String.eqb what "plaintext had bad hmac" then AuthenticationError
  else CipherError.

Definition fails_with {A} (r : outcome A) (k : ErrorKind) : Prop :=
  exists what, r = Throw what /\ error_kind what = k.

(** ** Keys *)

(** An [EC_KEY]: an optional private scalar and an optional public point
    (both are pointers that may be null). *)
Record EC_KEY : Type := mkEC_KEY {
  priv_key : option Z;
  pub_key : option Z
}.

(** [CKey] owns a pointer [pkey] to an [EC_KEY]. *)
Record CKey : Type := mkCKey { pkey : option EC_KEY }.

Definition EC_KEY_get0_private_key (k : EC_KEY) : option Z := priv_key k.
Definition EC_KEY_get0_public_key (k : EC_KEY) : option Z := pub_key k.

Definition is_some {A} (o : option A) : bool :=
  match o with Some _ => true | None => false end.

(** The key holds a private scalar. *)
Definition has_private (k : CKey) : bool :=
  match pkey k with
  | Some ek => is_some (priv_key ek)
  | None => false
  end.

(** Modelled from the spec: the public view of a key ([R.public]), that is
    the key with its private scalar left out.  [checkECIES] builds it with
    [SetPubKey(GetPubKey())], two members of [CKey] whose code is not among
    the sources. *)
Definition public_part (k : CKey) : CKey :=
  match pkey k with
  | Some ek => mkCKey (Some (mkEC_KEY None (pub_key ek)))
  | None => mkCKey None
  end.

(** ** The primitives of OpenSSL *)

Class Primitives : Type := {
  (** [EC_KEY_check_key]: the public point is on the curve and, when a
      private scalar is present, it is the scalar's multiple of the generator. *)
  EC_KEY_check_key : EC_KEY -> bool;
  (** x coordinate of scalar times point; [None] when the computation fails *)
  ECDH_x : Z -> Z -> option bytes;
  SHA256 : bytes -> bytes;
  HMAC_SHA256 : bytes -> bytes -> bytes;
  (** the AES-256 block permutation and its inverse: key, block *)
  AES_encrypt : bytes -> bytes -> bytes;
  AES_decrypt : bytes -> bytes -> bytes
}.

(** What the development relies on about them. *)
Class PrimitivesOk (P : Primitives) : Prop := {
  check_key_public : forall k, EC_KEY_check_key k = true -> pub_key k <> None;
  ECDH_defined : forall k1 k2 d Q,
    EC_KEY_check_key k1 = true -> EC_KEY_check_key k2 = true ->
    priv_key k1 = Some d -> pub_key k2 = Some Q -> ECDH_x d Q <> None;
  ECDH_symmetric : forall k1 k2 d1 d2 Q1 Q2,
    EC_KEY_check_key k1 = true -> EC_KEY_check_key k2 = true ->
    priv_key k1 = Some d1 -> pub_key k1 = Some Q1 ->
    priv_key k2 = Some d2 -> pub_key k2 = Some Q2 ->
    ECDH_x d1 Q2 = ECDH_x d2 Q1;
  SHA256_length : forall x, length (SHA256 x) = 32%nat;
  HMAC_SHA256_length : forall k x, length (HMAC_SHA256 k x) = 32%nat;
  AES_encrypt_length : forall k b, length (AES_encrypt k b) = 16%nat;
  AES_decrypt_encrypt : forall k b,
    length b = 16%nat -> AES_decrypt k (AES_encrypt k b) = b
}.

(** The block cipher read the other way round: deciphering a block and
    enciphering the result gives the block back.  With
    [AES_decrypt_encrypt] this makes the cipher a permutation of the
    16-byte blocks. *)
Definition AES_permutation (P : Primitives) : Prop :=
  (forall k b, length (AES_decrypt k b) = 16%nat)
  /\ (forall k b, length b = 16%nat -> AES_encrypt k (AES_decrypt k b) = b).

(** A key as the key-management component hands it over: allocated and
    consistent. *)
Definition valid_key {P : Primitives} (k : CKey) : Prop :=
  exists ek, pkey k = Some ek /\ EC_KEY_check_key ek = true.

Section Model.
Context {P : Primitives}.

(** ** Shared-secret derivation *)

(** The key-derivation callback handed to [ECDH_compute_key]; [None] is the
    NULL it returns when the output buffer is too small (a case its caller
    never produces: the buffer offered is of [ECIES_KEY_LENGTH] bytes). *)
Definition ecies_key_derivation (input : bytes) (olen : nat) : option (bytes * nat) :=
  if (olen <? ECIES_KEY_LENGTH)%nat then None
  else Some (SHA256 input, ECIES_KEY_LENGTH).

(** [ECDH_compute_key(out, outlen, pub_key, ecdh, KDF)]: the value returned
    (the number of bytes written, or -1) and the bytes written to [out]. *)
Definition ECDH_compute_key (outlen : nat) (pub : option Z) (ecdh : EC_KEY)
    (KDF : bytes -> nat -> option (bytes * nat)) : Z * bytes :=
  match EC_KEY_get0_private_key ecdh, pub with
  | Some d, Some Q =>
      match ECDH_x d Q with
      | Some x =>
          match KDF x outlen with
          | Some (out, olen) => (Z.of_nat olen, out)
          | None => (-1, [])
          end
      | None => (-1, [])
      end
  | _, _ => (-1, [])
  end.

Definition getECIESSecret (self otherKey : CKey) : M bytes :=
  match pkey self, pkey otherKey with
  | Some pk, Some opk =>
      sel <- (if is_some (EC_KEY_get0_private_key pk) then ret (pk, opk)
              else if is_some (EC_KEY_get0_private_key opk) then ret (opk, pk)
              else throw "no private key") ;;
      let '(privkey, pubkey) := sel in
      emit (EvCall "ECDH_compute_key") ;;;
      let '(r, key) := ECDH_compute_key ECIES_KEY_LENGTH
                         (EC_KEY_get0_public_key pubkey) privkey ecies_key_derivation in
      if negb (r =? Z.of_nat ECIES_KEY_LENGTH) then throw "ecdh key failed"
      else ret key
  | _, _ => throw "missing key"
  end.

(** ** The message authenticator *)

Record HMAC_CTX : Type := mkHMAC_CTX { hmac_key : bytes; hmac_data : bytes }.

Definition HMAC_Init_ex (key : bytes) (len : nat) : Z * HMAC_CTX :=
  (1, mkHMAC_CTX (firstn len key) []).

Definition HMAC_Update (ctx : HMAC_CTX) (data : bytes) (len : nat) : Z * HMAC_CTX :=
  (1, mkHMAC_CTX (hmac_key ctx) (hmac_data ctx ++ firstn len data)).

(** Return code, digest written, its length. *)
Definition HMAC_Final (ctx : HMAC_CTX) : Z * bytes * nat :=
  let md := HMAC_SHA256 (hmac_key ctx) (hmac_data ctx) in (1, md, length md).

Definition makeHMAC (secret data : bytes) : M bytes :=
  emit (EvCall "HMAC_Init_ex") ;;;
  let '(r, ctx) := HMAC_Init_ex secret ECIES_KEY_LENGTH in
  if negb (r =? 1) then throw "init hmac" else
  p <- front "data" data ;;
  emit (EvCall "HMAC_Update") ;;;
  let '(r, ctx) := HMAC_Update ctx p (length data) in
  if negb (r =? 1) then throw "update hmac" else
  let ml := EVP_MAX_MD_SIZE in
  let hmac := repeat 0%N ml in
  front "hmac" hmac ;;;
  emit (EvCall "HMAC_Final") ;;;
  let '(r, md, ml) := HMAC_Final ctx in
  hmac <- write hmac 0 md ;;
  if negb (r =? 1) then throw "finalize hmac" else
  p <- front "hmac" hmac ;;
  ret (firstn ECIES_HMAC_SIZE p).

(** Modelled from the spec: [operator!=] of [uint256] (declared in a header
    that is not part of the sources at hand).  The specification asks for a comparison
    that does not stop at the first difference: all byte positions are
    combined before the verdict is taken. *)
Definition uint256_ne (a b : bytes) : bool :=
  negb (fold_left (fun acc xy => N.lor acc (N.lxor (fst xy) (snd xy)))
                  (combine a b) 0%N =? 0)%N.

(** Modelled from the spec: the same [operator!=] as it runs, for the
    constant-time equality check the specification asks for.  Byte after
    byte, the position examined is logged and the difference found there is
    accumulated in [acc]; the verdict is taken when the operands are
    exhausted, never before. *)
Fixpoint uint256_ne_from (i : nat) (a b : bytes) (acc : N) : M bool :=
  match a, b with
  | x :: a', y :: b' =>
      emit (EvByte i) ;;;
      uint256_ne_from (S i) a' b' (N.lor acc (N.lxor x y))
  | _, _ => ret (negb (acc =? 0)%N)
  end.

Definition uint256_ne_run (a b : bytes) : M bool := uint256_ne_from 0 a b 0%N.

(** ** The cipher: EVP over AES-256-CBC *)

(** OpenSSL is a library the repository links against.  The functions
    below follow crypto/evp/evp_enc.c for a cipher of 16-byte blocks with
    padding enabled, the block permutation left to [Primitives]: each gives
    what the C function returns and what it stores through its output
    parameters. *)

Definition block_size : Z := 16.
Definition block_mask : Z := block_size - 1.

Definition xor_block (a b : bytes) : bytes :=
  map (fun i => N.lxor (nth i a 0%N) (nth i b 0%N)) (seq 0 16).

(** [AES_cbc_encrypt] over [n] whole blocks of [inp], chained from [iv]:
    the output and the chaining value left for the next call. *)
Fixpoint AES_cbc_encrypt (enc : bool) (key iv : bytes) (n : nat) (inp : bytes)
  : bytes * bytes :=
  match n with
  | O => ([], iv)
  | S n' =>
      let blk := firstn 16 inp in
      let o := if enc then AES_encrypt key (xor_block blk iv)
               else xor_block (AES_decrypt key blk) iv in
      let iv' := if enc then o else blk in
      let '(os, iv'') := AES_cbc_encrypt enc key iv' n' (skipn 16 inp) in
      (o ++ os, iv'')
  end.

Record EVP_CIPHER_CTX : Type := mkCTX {
  ctx_encrypt : bool;
  ctx_key : bytes;
  ctx_iv : bytes;
  ctx_buf : bytes;        (* the partial block saved, [buf_len] bytes *)
  ctx_final : bytes;      (* the decrypted block held back *)
  ctx_final_used : bool
}.

Definition buf_len (ctx : EVP_CIPHER_CTX) : Z := Z.of_nat (length (ctx_buf ctx)).

Definition set_iv (ctx : EVP_CIPHER_CTX) (iv : bytes) : EVP_CIPHER_CTX :=
  mkCTX (ctx_encrypt ctx) (ctx_key ctx) iv (ctx_buf ctx) (ctx_final ctx) (ctx_final_used ctx).
Definition set_buf (ctx : EVP_CIPHER_CTX) (b : bytes) : EVP_CIPHER_CTX :=
  mkCTX (ctx_encrypt ctx) (ctx_key ctx) (ctx_iv ctx) b (ctx_final ctx) (ctx_final_used ctx).
Definition set_final (ctx : EVP_CIPHER_CTX) (f : bytes) (used : bool) : EVP_CIPHER_CTX :=
  mkCTX (ctx_encrypt ctx) (ctx_key ctx) (ctx_iv ctx) (ctx_buf ctx) f used.

Definition EVP_CipherInit_ex (enc : bool) (key iv : bytes) : Z * EVP_CIPHER_CTX :=
  (1, mkCTX enc (firstn ECIES_ENC_KEY_SIZE key) (firstn ECIES_ENC_BLK_SIZE iv) [] [] false).
Definition EVP_EncryptInit_ex := EVP_CipherInit_ex true.
Definition EVP_DecryptInit_ex := EVP_CipherInit_ex false.

(** [ctx->cipher->do_cipher(ctx, out, in, inl)], [inl] a multiple of the
    block size. *)
Definition do_cipher (ctx : EVP_CIPHER_CTX) (inp : bytes) (inl : Z)
  : EVP_CIPHER_CTX * bytes :=
  let '(o, iv') := AES_cbc_encrypt (ctx_encrypt ctx) (ctx_key ctx) (ctx_iv ctx)
                     (Z.to_nat (inl / block_size)) inp in
  (set_iv ctx iv', o).

(** Return code, context, bytes stored to [out], [*outl]. *)
Definition EVP_EncryptUpdate (ctx : EVP_CIPHER_CTX) (inp : bytes) (inl : Z)
  : Z * EVP_CIPHER_CTX * bytes * Z :=
  if inl <=? 0 then ((if inl =? 0 then 1 else 0), ctx, [], 0)
  else if (buf_len ctx =? 0) && (Z.land inl block_mask =? 0) then
    let '(ctx', o) := do_cipher ctx inp inl in (1, ctx', o, inl)
  else
    let i := buf_len ctx in
    let bl := block_size in
    if negb (i =? 0) && (i + inl <? bl) then
      (1, set_buf ctx (ctx_buf ctx ++ firstn (Z.to_nat inl) inp), [], 0)
    else
      let '(ctx1, o1, outl1, inp1, inl1) :=
        if negb (i =? 0) then
          let j := bl - i in
          let '(c, o) := do_cipher ctx (ctx_buf ctx ++ firstn (Z.to_nat j) inp) bl in
          (c, o, bl, skipn (Z.to_nat j) inp, inl - j)
        else (ctx, [], 0, inp, inl) in
      let i' := Z.land inl1 (bl - 1) in
      let inl2 := inl1 - i' in
      let '(ctx2, o2) :=
        if inl2 >? 0 then do_cipher ctx1 inp1 inl2 else (ctx1, []) in
      (1, set_buf ctx2 (firstn (Z.to_nat i') (skipn (Z.to_nat inl2) inp1)),
       o1 ++ o2, outl1 + inl2).

Definition EVP_EncryptFinal_ex (ctx : EVP_CIPHER_CTX)
  : Z * EVP_CIPHER_CTX * bytes * Z :=
  let b := block_size in
  let bl := buf_len ctx in
  let n := b - bl in
  let padded := ctx_buf ctx ++ repeat (Z.to_N n) (Z.to_nat n) in
  let '(ctx', o) := do_cipher ctx padded b in
  (1, ctx', o, b).

Definition EVP_DecryptUpdate (ctx : EVP_CIPHER_CTX) (inp : bytes) (inl : Z)
  : Z * EVP_CIPHER_CTX * bytes * Z :=
  if inl <=? 0 then ((if inl =? 0 then 1 else 0), ctx, [], 0)
  else
    let b := block_size in
    let fix_len := ctx_final_used ctx in
    let held := if fix_len then ctx_final ctx else [] in
    let '(r, ctx1, o, outl) := EVP_EncryptUpdate ctx inp inl in
    if r =? 0 then (0, ctx1, held ++ o, outl)
    else
      let '(ctx2, outl2) :=
        if (b >? 1) && (buf_len ctx1 =? 0) then
          (set_final ctx1 (firstn 16 (skipn (Z.to_nat (outl - b)) o)) true, outl - b)
        else (set_final ctx1 (ctx_final ctx1) false, outl) in
      (1, ctx2, held ++ o, if fix_len then outl2 + b else outl2).

(** Return code, bytes stored to [out], [*outl]. *)
Definition EVP_DecryptFinal_ex (ctx : EVP_CIPHER_CTX) : Z * bytes * Z :=
  let b := block_size in
  if negb (buf_len ctx =? 0) || negb (ctx_final_used ctx) then (0, [], 0)
  else
    let n := Z.of_N (nth 15 (ctx_final ctx) 0%N) in
    if (n =? 0) || (n >? b) then (0, [], 0)
    else if negb (forallb (fun x => Z.of_N x =? n)
                    (skipn (Z.to_nat (b - n)) (firstn 16 (ctx_final ctx))))
    then (0, [], 0)
    else (1, firstn (Z.to_nat (b - n)) (ctx_final ctx), b - n).

Definition EVP_DecryptFinal := EVP_DecryptFinal_ex.

(** [RAND_bytes(buf, num)] against what the entropy source has to give. *)
Definition RAND_bytes (entropy : option bytes) (num : nat) : Z * bytes :=
  match entropy with
  | Some bs => if (length bs =? num)%nat then (1, bs) else (0, [])
  | None => (0, [])
  end.

(** ** The envelope *)

(** Our ciphertext is all encrypted except the IV.  The encrypted data
    decodes as: HMAC of the original plaintext, original plaintext, rest of
    block/padding.  [entropy] is what [RAND_bytes] finds when it is called. *)
Definition encryptECIES (self otherKey : CKey) (plaintext : bytes)
    (entropy : option bytes) : M bytes :=
  secret <- getECIESSecret self otherKey ;;
  hmac <- makeHMAC secret plaintext ;;
  emit (EvCall "RAND_bytes") ;;;
  let '(r, iv) := RAND_bytes entropy ECIES_ENC_BLK_SIZE in
  if negb (r =? 1) then throw "insufficient entropy" else
  emit (EvCall "EVP_EncryptInit_ex") ;;;
  let '(r, ctx) := EVP_EncryptInit_ex secret iv in
  if negb (r =? 1) then throw "init cipher ctx" else
  let out := repeat 0%N (length plaintext + ECIES_HMAC_SIZE
                         + ECIES_ENC_KEY_SIZE + ECIES_ENC_BLK_SIZE) in
  (* output IV *)
  front "out" out ;;;
  out <- write out 0 (firstn ECIES_ENC_BLK_SIZE iv) ;;
  let len := Z.of_nat ECIES_ENC_BLK_SIZE in
  (* Encrypt/output HMAC *)
  let bytesWritten := to_int (Z.of_nat (capacity out) - len) in
  assert (bytesWritten >? 0) ;;;
  front "out" out ;;;
  emit (EvCall "EVP_EncryptUpdate") ;;;
  let '(r, ctx, o, bytesWritten) :=
    EVP_EncryptUpdate ctx hmac (Z.of_nat ECIES_HMAC_SIZE) in
  out <- write out (Z.to_nat len) o ;;
  if r <? 0 then throw "" else
  let len := len + bytesWritten in
  (* encrypt/output plaintext *)
  let bytesWritten := to_int (Z.of_nat (capacity out) - len) in
  assert (bytesWritten >? 0) ;;;
  front "out" out ;;;
  p <- front "plaintext" plaintext ;;
  emit (EvCall "EVP_EncryptUpdate") ;;;
  let '(r, ctx, o, bytesWritten) :=
    EVP_EncryptUpdate ctx p (to_int (Z.of_nat (length plaintext))) in
  out <- write out (Z.to_nat len) o ;;
  if r <? 0 then throw "" else
  let len := len + bytesWritten in
  (* finalize *)
  let bytesWritten := to_int (Z.of_nat (capacity out) - len) in
  front "out" out ;;;
  emit (EvCall "EVP_EncryptFinal_ex") ;;;
  let '(r, ctx, o, bytesWritten) := EVP_EncryptFinal_ex ctx in
  out <- write out (Z.to_nat len) o ;;
  if r <? 0 then throw "" else
  let len := len + bytesWritten in
  (* Output contains: IV, encrypted HMAC, encrypted data, encrypted padding *)
  assert (len <=? Z.of_nat (length plaintext + ECIES_HMAC_SIZE
                            + 2 * ECIES_ENC_BLK_SIZE)) ;;;
  assert (len >=? Z.of_nat (length plaintext + ECIES_HMAC_SIZE
                            + ECIES_ENC_BLK_SIZE)) ;;;
  ret (resize out (Z.to_nat len)).

(** Lines 165 to 210: from the length check to the end of unpadding.  The
    result is the MAC found in the envelope and the plaintext recovered. *)
Definition open_envelope (secret ciphertext : bytes) : M (bytes * bytes) :=
  (* minimum ciphertext = IV + HMAC + 1 block *)
  if (length ciphertext <? 2 * ECIES_ENC_BLK_SIZE + ECIES_HMAC_SIZE)%nat
  then throw "ciphertext too short" else
  (* extract IV *)
  p <- front "ciphertext" ciphertext ;;
  let iv := firstn ECIES_ENC_BLK_SIZE p in
  (* begin decrypting *)
  emit (EvCall "EVP_DecryptInit_ex") ;;;
  let '(r, ctx) := EVP_DecryptInit_ex secret iv in
  if negb (r =? 1) then throw "unable to init cipher" else
  (* decrypt mac *)
  let hmac := repeat 0%N ECIES_HMAC_SIZE in
  p <- front "ciphertext" ciphertext ;;
  emit (EvCall "EVP_DecryptUpdate") ;;;
  let '(r, ctx, o, outlen) :=
    EVP_DecryptUpdate ctx (skipn ECIES_ENC_BLK_SIZE p)
                      (Z.of_nat ECIES_HMAC_SIZE + 1) in
  hmac <- write hmac 0 o ;;
  if negb (r =? 1) || negb (outlen =? Z.of_nat ECIES_HMAC_SIZE)
  then throw "unable to extract hmac" else
  (* decrypt plaintext (after IV and encrypted mac) *)
  let plaintext :=
    repeat 0%N (length ciphertext - ECIES_HMAC_SIZE - ECIES_ENC_BLK_SIZE) in
  front "plaintext" plaintext ;;;
  p <- front "ciphertext" ciphertext ;;
  emit (EvCall "EVP_DecryptUpdate") ;;;
  let '(r, ctx, o, outlen) :=
    EVP_DecryptUpdate ctx
      (skipn (ECIES_ENC_BLK_SIZE + ECIES_HMAC_SIZE + 1) p)
      (to_int (Z.of_nat (length ciphertext - ECIES_ENC_BLK_SIZE
                         - ECIES_HMAC_SIZE - 1))) in
  plaintext <- write plaintext 0 o ;;
  if negb (r =? 1) then throw "unable to extract plaintext" else
  front "plaintext" plaintext ;;;
  emit (EvCall "EVP_DecryptFinal") ;;;
  let '(r, o, flen) := EVP_DecryptFinal ctx in
  plaintext <- write plaintext (Z.to_nat outlen) o ;;
  if negb (r =? 1) then throw "plaintext had bad padding" else
  ret (hmac, resize plaintext (Z.to_nat (flen + outlen))).

Definition decryptECIES (self otherKey : CKey) (ciphertext : bytes) : M bytes :=
  secret <- getECIESSecret self otherKey ;;
  opened <- open_envelope secret ciphertext ;;
  let '(hmac, plaintext) := opened in
  mac <- makeHMAC secret plaintext ;;
  emit EvCompare ;;;
  differ <- uint256_ne_run hmac mac ;;
  if differ then throw "plaintext had bad hmac"
  else ret plaintext.

(** ** The self-test *)

(** [operator!=] of [std::vector<unsigned char>]. *)
Definition vector_ne (a b : bytes) : bool :=
  if list_eq_dec N.eq_dec a b then false else true.

(** The loop of [checkECIES] (lines 233 to 251): [n] iterations, from the
    value [i] of the counter on.  The four keys are those the function has
    set up before the loop; [rand k] is what call number [k] of [RAND_bytes]
    finds, each iteration making two calls (the message, then the IV inside
    [encryptECIES]). *)
Fixpoint checkECIES_loop (n i : nat)
    (senderPriv recipientPriv senderPub recipientPub : CKey)
    (rand : nat -> option bytes) : M bool :=
  match n with
  | O => ret true
  | S n' =>
      (* generate message *)
      let message := repeat 0%N 4096 in
      let msglen := (i mod 3000)%nat in
      front "message" message ;;;
      emit (EvCall "RAND_bytes") ;;;
      let '(r, bs) := RAND_bytes (rand (2 * i)%nat) msglen in
      message <- write message 0 bs ;;
      if negb (r =? 1) then throw "insufficient entropy" else
      let message := resize message msglen in
      (* encrypt message with sender's private key and recipient's public key *)
      ciphertext <- encryptECIES senderPriv recipientPub message
                      (rand (2 * i + 1)%nat) ;;
      (* decrypt message with recipient's private key and sender's public key *)
      decrypt <- decryptECIES recipientPriv senderPub ciphertext ;;
      if vector_ne decrypt message then ret false
      else checkECIES_loop n' (S i) senderPriv recipientPriv senderPub
             recipientPub rand
  end.

(** The bound of the loop, [i<30000]. *)
#[warnings="-abstract-large-number"]
Definition checkECIES_rounds : nat := 30000.

(** [checkECIES] from the two key pairs [MakeNewKey] has produced; the
    public keys are their public views ([public_part]). *)
Definition checkECIES (senderPriv recipientPriv : CKey)
    (rand : nat -> option bytes) : M bool :=
  checkECIES_loop checkECIES_rounds 0 senderPriv recipientPriv
    (public_part senderPriv) (public_part recipientPriv) rand.

End Model.

(** ** Shapes used in the statements *)

(** The events of one [makeHMAC] over [n] bytes. *)
Definition hmac_trace (n : nat) : list event :=
  [EvCall "HMAC_Init_ex"; EvFront "data" n; EvCall "HMAC_Update";
   EvFront "hmac" EVP_MAX_MD_SIZE; EvCall "HMAC_Final";
   EvFront "hmac" EVP_MAX_MD_SIZE].

(** The events of one successful [encryptECIES] of [n] bytes, after the
    secret has been derived. *)
Definition encrypt_trace (n : nat) : list event :=
  hmac_trace n ++
  [EvCall "RAND_bytes"; EvCall "EVP_EncryptInit_ex";
   EvFront "out" (n + 80); EvFront "out" (n + 80); EvCall "EVP_EncryptUpdate";
   EvFront "out" (n + 80); EvFront "plaintext" n; EvCall "EVP_EncryptUpdate";
   EvFront "out" (n + 80); EvCall "EVP_EncryptFinal_ex"].

(** The events of [open_envelope] on [n] bytes when it runs up to the
    unpadding. *)
Definition open_trace (n : nat) : list event :=
  [EvFront "ciphertext" n; EvCall "EVP_DecryptInit_ex";
   EvFront "ciphertext" n; EvCall "EVP_DecryptUpdate";
   EvFront "plaintext" (n - 48); EvFront "ciphertext" n;
   EvCall "EVP_DecryptUpdate";
   EvFront "plaintext" (n - 48); EvCall "EVP_DecryptFinal"].

(** The padding that finalisation appends to a stream of [n] bytes: always
    between 1 and 16 bytes, each holding their number. *)
Definition pkcs_padding (n : nat) : bytes :=
  repeat (N.of_nat (16 - n mod 16)) (16 - n mod 16).

(** The padding a final block [blk] of 16 bytes carries, if it is one: its
    last byte [n] is between 1 and 16 and its last [n] bytes all hold [n]. *)
Definition padding_of (blk : bytes) : option nat :=
  let n := N.to_nat (nth 15 blk 0%N) in
  if (1 <=? n)%nat && (n <=? 16)%nat
     && forallb (N.eqb (N.of_nat n)) (skipn (16 - n) blk)
  then Some n
  else None.

(** Removal of the padding from a run of whole blocks. *)
Definition pkcs_unpad (x : bytes) : option bytes :=
  match padding_of (skipn (length x - 16) x) with
  | Some n => Some (firstn (length x - n) x)
  | None => None
  end.

Section Shapes.
Context {P : Primitives}.

(** CBC over the whole blocks of [x]. *)
Definition cbc_encrypt (key iv x : bytes) : bytes :=
  fst (AES_cbc_encrypt true key iv (length x / 16) x).
Definition cbc_decrypt (key iv x : bytes) : bytes :=
  fst (AES_cbc_encrypt false key iv (length x / 16) x).

(** The wire format: the IV in clear, then MAC, plaintext and padding under
    the cipher. *)
Definition envelope (secret iv plaintext : bytes) : bytes :=
  let key := firstn ECIES_ENC_KEY_SIZE secret in
  let mac := HMAC_SHA256 (firstn ECIES_KEY_LENGTH secret) plaintext in
  iv ++ cbc_encrypt key iv (mac ++ plaintext ++ pkcs_padding (length plaintext)).

(** What [open_envelope] finds in a ciphertext of at least 64 bytes: the
    first two blocks under the cipher are the MAC, the rest is the padded
    plaintext; a length that is not whole blocks, or a last block that is
    not a padding, is reported as bad padding. *)
Definition unseal (secret ct : bytes) : outcome (bytes * bytes) :=
  let plain := cbc_decrypt (firstn ECIES_ENC_KEY_SIZE secret)
                 (firstn 16 ct) (skipn 16 ct) in
  if (length ct mod 16 =? 0)%nat then
    match pkcs_unpad (skipn 32 plain) with
    | Some pt => Ok (firstn 32 plain, pt)
    | None => Throw "plaintext had bad padding"
    end
  else Throw "plaintext had bad padding".

End Shapes.

(** ** Reading a trace *)

Definition is_cipher_call (e : event) : bool :=
  match e with EvCall fn => String.prefix "EVP_" fn | _ => false end.

Definition is_hmac_call (e : event) : bool :=
  match e with EvCall fn => String.prefix "HMAC_" fn | _ => false end.

Definition is_compare (e : event) : bool :=
  match e with EvCompare => true | _ => false end.

(** [v.front()] met a vector that has a first element. *)
Definition front_in_bounds (e : event) : bool :=
  match e with EvFront _ size => (0 <? size)%nat | _ => true end.

(** ** A toy instance of the primitives, to run the model *)

Definition toy_check_key (k : EC_KEY) : bool :=
  match pub_key k, priv_key k with
  | Some Q, Some d => Q =? 7 * d
  | Some _, None => true
  | None, _ => false
  end.

Definition toy_digest (x : bytes) : bytes :=
  repeat (fold_left N.lxor x (N.of_nat (length x))) 32.

Definition toy : Primitives := {|
  EC_KEY_check_key := toy_check_key;
  ECDH_x := fun d Q => Some [Z.to_N (Z.abs (d * Q))];
  SHA256 := toy_digest;
  HMAC_SHA256 := fun k x => toy_digest (k ++ x);
  AES_encrypt := fun k b => xor_block b k;
  AES_decrypt := fun k b => xor_block b k
|}.

Definition toy_sender : CKey := mkCKey (Some (mkEC_KEY (Some 3) (Some 21))).
Definition toy_sender_pub : CKey := mkCKey (Some (mkEC_KEY None (Some 21))).
Definition toy_recipient : CKey := mkCKey (Some (mkEC_KEY (Some 5) (Some 35))).
Definition toy_recipient_pub : CKey := mkCKey (Some (mkEC_KEY None (Some 35))).
Definition toy_iv : bytes := map N.of_nat (seq 100 16).

Definition toy_message : bytes := map N.of_nat (seq 0 37).

(** The envelope of [toy_message] under the secret the two toy key pairs
    share and [toy_iv]. *)
Definition toy_ciphertext : bytes :=
  @envelope toy (toy_digest [105%N]) toy_iv toy_message.

(** [toy_ciphertext] with the first byte of its IV changed. *)
Definition toy_tampered : bytes :=
  (101 :: tl toy_iv)%N ++ skipn 16 toy_ciphertext.

(** A random source that serves every call: zero bytes for the messages of
    the self-test, [toy_iv] for the IVs. *)
Definition toy_rand (k : nat) : option bytes :=
  if Nat.even k then Some (repeat 0%N ((k / 2) mod 3000)) else Some toy_iv.

(** * Properties *)

#[local] Arguments firstn : simpl never.
#[local] Arguments skipn : simpl never.
#[local] Arguments repeat : simpl never.
#[local] Arguments write : simpl never.
#[local] Arguments to_int : simpl never.
#[local] Arguments Z.of_nat : simpl never.
#[local] Arguments Z.to_nat : simpl never.

(** ** The monad *)

Lemma result_bind {A B} (m : M A) (f : A -> M B) :
  result (bind m f) =
  match result m with
  | Ok a => result (f a)
  | Throw what => Throw what
  | Abort => Abort
  | Undefined => Undefined
  end.
Proof.
  destruct m as [t [a | w | | ]]; simpl; try reflexivity.
  destruct (f a); reflexivity.
Qed.

Lemma trace_bind {A B} (m : M A) (f : A -> M B) :
  trace (bind m f) =
  match result m with
  | Ok a => trace m ++ trace (f a)
  | _ => trace m
  end.
Proof.
  destruct m as [t [a | w | | ]]; simpl; try reflexivity.
  destruct (f a); reflexivity.
Qed.

Lemma bind_ok {A B} (m : M A) (f : A -> M B) t a :
  m = (t, Ok a) -> bind m f = (t ++ trace (f a), result (f a)).
Proof. intros ->. simpl. destruct (f a); reflexivity. Qed.

Lemma bind_throw {A B} (m : M A) (f : A -> M B) t what :
  m = (t, Throw what) -> bind m f = (t, Throw what).
Proof. intros ->. reflexivity. Qed.

Lemma result_bind_ok_inv {A B} (m : M A) (f : A -> M B) b :
  result (bind m f) = Ok b ->
  exists a, result m = Ok a /\ result (f a) = Ok b.
Proof.
  rewrite result_bind. destruct (result m); try discriminate.
  intros H. eauto.
Qed.

Lemma result_bind_throw_inv {A B} (m : M A) (f : A -> M B) what :
  result (bind m f) = Throw what ->
  result m = Throw what \/ exists a, result m = Ok a /\ result (f a) = Throw what.
Proof.
  rewrite result_bind. destruct (result m); try discriminate.
  - intros H. right. eauto.
  - intros [= ->]. left. reflexivity.
Qed.

Lemma surjective_M {A} (m : M A) : m = (trace m, result m).
Proof. destruct m; reflexivity. Qed.

(** ** Stores *)

Lemma write_length v off data v' :
  result (write v off data) = Ok v' -> length v' = length v.
Proof.
  unfold write. destruct (Nat.leb_spec (off + length data) (length v)); simpl.
  - intros [= <-]. rewrite !length_app, length_firstn, length_skipn. lia.
  - discriminate.
Qed.

Lemma write_in_bounds v off data :
  (off + length data <= length v)%nat ->
  write v off data = ([], Ok (firstn off v ++ data ++ skipn (off + length data) v)).
Proof.
  intros H. unfold write.
  destruct (Nat.leb_spec (off + length data) (length v)); [reflexivity | lia].
Qed.

Lemma write_trace v off data : trace (write v off data) = [].
Proof. unfold write. destruct (_ <=? _)%nat; reflexivity. Qed.

(** ** Shared-secret derivation *)

Section SecretDerivation.
Context {P : Primitives}.

Lemma getECIESSecret_no_private (A B : CKey) :
  has_private A = false -> has_private B = false ->
  exists what, getECIESSecret A B = ([], Throw what)
               /\ (what = "missing key" \/ what = "no private key")%string.
Proof.
  unfold has_private, getECIESSecret, EC_KEY_get0_private_key.
  destruct (pkey A) as [a | ], (pkey B) as [b | ]; intros HA HB;
    try (exists "missing key"%string; split; [reflexivity | left; reflexivity]).
  rewrite HA, HB. simpl.
  exists "no private key"%string. split; [reflexivity | right; reflexivity].
Qed.

Lemma getECIESSecret_trace (A B : CKey) :
  trace (getECIESSecret A B) = [] \/
  trace (getECIESSecret A B) = [EvCall "ECDH_compute_key"].
Proof.
  unfold getECIESSecret.
  destruct (pkey A) as [a | ], (pkey B) as [b | ]; try (left; reflexivity).
  destruct (is_some (EC_KEY_get0_private_key a)); simpl.
  - right. destruct (ECDH_compute_key _ _ _ _) as [r k].
    destruct (negb _); reflexivity.
  - destruct (is_some (EC_KEY_get0_private_key b)); simpl.
    + right. destruct (ECDH_compute_key _ _ _ _) as [r k].
      destruct (negb _); reflexivity.
    + left. reflexivity.
Qed.

Lemma getECIESSecret_ok_trace (A B : CKey) secret :
  result (getECIESSecret A B) = Ok secret ->
  trace (getECIESSecret A B) = [EvCall "ECDH_compute_key"].
Proof.
  unfold getECIESSecret.
  destruct (pkey A) as [a | ], (pkey B) as [b | ]; try discriminate.
  destruct (is_some (EC_KEY_get0_private_key a)); simpl.
  - destruct (ECDH_compute_key _ _ _ _) as [r k].
    destruct (negb _); reflexivity.
  - destruct (is_some (EC_KEY_get0_private_key b)); simpl.
    + destruct (ECDH_compute_key _ _ _ _) as [r k].
      destruct (negb _); reflexivity.
    + discriminate.
Qed.

Context {HP : PrimitivesOk P}.

(** With a private scalar [d] on one side and a public point [Q] on the
    other, the key agreement goes through and hashes the shared coordinate. *)
Lemma ECDH_compute_key_ok (priv : EC_KEY) d Q x :
  priv_key priv = Some d -> ECDH_x d Q = Some x ->
  ECDH_compute_key ECIES_KEY_LENGTH (Some Q) priv ecies_key_derivation
  = (Z.of_nat ECIES_KEY_LENGTH, SHA256 x).
Proof.
  intros Hd Hx. unfold ECDH_compute_key, EC_KEY_get0_private_key.
  rewrite Hd, Hx. reflexivity.
Qed.

Lemma getECIESSecret_valid (A B : CKey) :
  valid_key A -> valid_key B -> has_private A || has_private B = true ->
  exists x, getECIESSecret A B = ([EvCall "ECDH_compute_key"], Ok (SHA256 x))
         /\ getECIESSecret B A = ([EvCall "ECDH_compute_key"], Ok (SHA256 x)).
Proof.
  intros (a & HA & Ca) (b & HB & Cb).
  unfold has_private, getECIESSecret, EC_KEY_get0_private_key,
    EC_KEY_get0_public_key.
  rewrite HA, HB.
  destruct (pub_key a) as [Qa | ] eqn:Ea;
    [ | exfalso; exact (check_key_public a Ca Ea) ].
  destruct (pub_key b) as [Qb | ] eqn:Eb;
    [ | exfalso; exact (check_key_public b Cb Eb) ].
  destruct (priv_key a) as [da | ] eqn:Pa, (priv_key b) as [db | ] eqn:Pb;
    simpl; intros Hpriv; try discriminate.
  - (* both sides hold a scalar: Diffie-Hellman symmetry *)
    destruct (ECDH_x da Qb) as [x | ] eqn:Ex;
      [ | exfalso; exact (ECDH_defined a b da Qb Ca Cb Pa Eb Ex) ].
    assert (Ex' : ECDH_x db Qa = Some x).
    { rewrite <- Ex. symmetry.
      exact (ECDH_symmetric a b da db Qa Qb Ca Cb Pa Ea Pb Eb). }
    exists x. rewrite Eb, Ea.
    rewrite (ECDH_compute_key_ok a da Qb x Pa Ex).
    rewrite (ECDH_compute_key_ok b db Qa x Pb Ex').
    split; reflexivity.
  - (* only [A] holds one: both calls pick it *)
    destruct (ECDH_x da Qb) as [x | ] eqn:Ex;
      [ | exfalso; exact (ECDH_defined a b da Qb Ca Cb Pa Eb Ex) ].
    exists x. rewrite Eb.
    rewrite (ECDH_compute_key_ok a da Qb x Pa Ex).
    split; reflexivity.
  - (* only [B] holds one *)
    destruct (ECDH_x db Qa) as [x | ] eqn:Ex;
      [ | exfalso; exact (ECDH_defined b a db Qa Cb Ca Pb Ea Ex) ].
    exists x. rewrite Ea.
    rewrite (ECDH_compute_key_ok b db Qa x Pb Ex).
    split; reflexivity.
Qed.

(** When both keys hold a scalar, whichever side gives only its public
    view, the secret is the same: the scalar of one with the point of the
    other. *)
Lemma getECIESSecret_cross (S R : CKey) :
  valid_key S -> valid_key R -> has_private S = true -> has_private R = true ->
  exists x,
    getECIESSecret S R = ([EvCall "ECDH_compute_key"], Ok (SHA256 x))
    /\ getECIESSecret S (public_part R) = ([EvCall "ECDH_compute_key"], Ok (SHA256 x))
    /\ getECIESSecret R (public_part S) = ([EvCall "ECDH_compute_key"], Ok (SHA256 x)).
Proof.
  intros (s & HS & Cs) (r & HR & Cr).
  unfold has_private, public_part, getECIESSecret, EC_KEY_get0_private_key,
    EC_KEY_get0_public_key.
  rewrite HS, HR. cbn [pkey priv_key pub_key].
  destruct (pub_key s) as [Qs | ] eqn:Es;
    [ | exfalso; exact (check_key_public s Cs Es) ].
  destruct (pub_key r) as [Qr | ] eqn:Er;
    [ | exfalso; exact (check_key_public r Cr Er) ].
  destruct (priv_key s) as [ds | ] eqn:Ps; [ | discriminate ].
  destruct (priv_key r) as [dr | ] eqn:Pr; [ | discriminate ].
  intros _ _. cbn [is_some].
  destruct (ECDH_x ds Qr) as [x | ] eqn:Ex;
    [ | exfalso; exact (ECDH_defined s r ds Qr Cs Cr Ps Er Ex) ].
  assert (Ex' : ECDH_x dr Qs = Some x).
  { rewrite <- Ex. symmetry.
    exact (ECDH_symmetric s r ds dr Qs Qr Cs Cr Ps Es Pr Er). }
  exists x. cbn [bind ret pub_key]. rewrite Er.
  rewrite (ECDH_compute_key_ok s ds Qr x Ps Ex).
  rewrite (ECDH_compute_key_ok r dr Qs x Pr Ex').
  repeat split; reflexivity.
Qed.

End SecretDerivation.

(** ** Prefixes and suffixes *)

Lemma firstn_app_exact {A} (a b : list A) n :
  length a = n -> firstn n (a ++ b) = a.
Proof.
  intros <-. rewrite firstn_app, Nat.sub_diag, firstn_0, app_nil_r.
  apply firstn_all.
Qed.

Lemma skipn_app_exact {A} (a b : list A) n :
  length a = n -> skipn n (a ++ b) = b.
Proof.
  intros <-. rewrite skipn_app, Nat.sub_diag, skipn_0, skipn_all. reflexivity.
Qed.

Lemma firstn_app_le {A} (a b : list A) n :
  (n <= length a)%nat -> firstn n (a ++ b) = firstn n a.
Proof.
  intros H. rewrite firstn_app.
  replace (n - length a)%nat with 0%nat by lia.
  rewrite firstn_0, app_nil_r. reflexivity.
Qed.

Lemma firstn_add {A} (l : list A) a b :
  (a <= length l)%nat ->
  firstn (a + b) l = firstn a l ++ firstn b (skipn a l).
Proof.
  intros Ha. rewrite <- (firstn_skipn a l) at 1.
  rewrite firstn_app, length_firstn.
  replace (Nat.min a (length l)) with a by lia.
  rewrite firstn_all2 by (rewrite length_firstn; lia).
  replace (a + b - a)%nat with b by lia. reflexivity.
Qed.

Lemma skipn_app_le {A} (a b : list A) n :
  (n <= length a)%nat -> skipn n (a ++ b) = skipn n a ++ b.
Proof.
  intros H. rewrite skipn_app.
  replace (n - length a)%nat with 0%nat by lia.
  rewrite skipn_0. reflexivity.
Qed.

(** ** Blocks and chaining *)

Lemma xor_block_length a b : length (xor_block a b) = 16%nat.
Proof. unfold xor_block. rewrite length_map, length_seq. reflexivity. Qed.

Lemma nth_xor_block a b i :
  (i < 16)%nat ->
  nth i (xor_block a b) 0%N = N.lxor (nth i a 0%N) (nth i b 0%N).
Proof.
  intros Hi. unfold xor_block.
  rewrite (nth_indep _ 0%N (N.lxor (nth 0 a 0%N) (nth 0 b 0%N)))
    by (rewrite length_map, length_seq; exact Hi).
  rewrite (map_nth (fun i => N.lxor (nth i a 0%N) (nth i b 0%N)) (seq 0 16) 0%nat i).
  rewrite seq_nth by exact Hi. reflexivity.
Qed.

Lemma xor_block_involutive a b :
  length a = 16%nat -> xor_block (xor_block a b) b = a.
Proof.
  intros Ha. apply (nth_ext _ _ 0%N 0%N).
  - rewrite xor_block_length. symmetry. exact Ha.
  - intros i Hi. rewrite xor_block_length in Hi.
    rewrite !nth_xor_block by exact Hi.
    rewrite N.lxor_assoc, N.lxor_nilpotent, N.lxor_0_r. reflexivity.
Qed.

Section Chaining.
Context {P : Primitives} {HP : PrimitivesOk P}.

Lemma AES_cbc_encrypt_length enc key iv n inp :
  length (fst (AES_cbc_encrypt enc key iv n inp)) = (16 * n)%nat.
Proof.
  revert iv inp. induction n as [ | n IH]; intros iv inp; [reflexivity | ].
  cbn [AES_cbc_encrypt].
  destruct enc.
  - specialize (IH (AES_encrypt key (xor_block (firstn 16 inp) iv)) (skipn 16 inp)).
    destruct (AES_cbc_encrypt true key _ n (skipn 16 inp)) as [os iv''].
    cbn [fst] in *. rewrite length_app, IH, AES_encrypt_length. lia.
  - specialize (IH (firstn 16 inp) (skipn 16 inp)).
    destruct (AES_cbc_encrypt false key _ n (skipn 16 inp)) as [os iv''].
    cbn [fst] in *. rewrite length_app, IH, xor_block_length. lia.
Qed.

(** Processing [n1 + n2] blocks is processing [n1], then [n2] from where
    the chain stands. *)
Lemma AES_cbc_encrypt_add enc key iv n1 n2 inp :
  AES_cbc_encrypt enc key iv (n1 + n2) inp =
  (fst (AES_cbc_encrypt enc key iv n1 inp)
     ++ fst (AES_cbc_encrypt enc key (snd (AES_cbc_encrypt enc key iv n1 inp))
               n2 (skipn (16 * n1) inp)),
   snd (AES_cbc_encrypt enc key (snd (AES_cbc_encrypt enc key iv n1 inp))
          n2 (skipn (16 * n1) inp))).
Proof.
  revert iv inp. induction n1 as [ | n1 IH]; intros iv inp.
  - cbn. rewrite skipn_0.
    destruct (AES_cbc_encrypt enc key iv n2 inp); reflexivity.
  - assert (E : skipn (16 * S n1) inp = skipn (16 * n1) (skipn 16 inp))
      by (rewrite skipn_skipn; f_equal; lia).
    rewrite E. cbn [Nat.add AES_cbc_encrypt].
    rewrite IH.
    destruct (AES_cbc_encrypt enc key _ n1 (skipn 16 inp)) as [os iv''].
    cbn [fst snd]. rewrite <- app_assoc. reflexivity.
Qed.

(** Only the first [16 * n] bytes of the input are read. *)
Lemma AES_cbc_encrypt_prefix enc key iv n a b :
  (16 * n <= length a)%nat ->
  AES_cbc_encrypt enc key iv n (a ++ b) = AES_cbc_encrypt enc key iv n a.
Proof.
  revert iv a. induction n as [ | n IH]; intros iv a Ha; [reflexivity | ].
  cbn [AES_cbc_encrypt].
  rewrite firstn_app_le, skipn_app_le by lia.
  rewrite IH by (rewrite length_skipn; lia).
  reflexivity.
Qed.

(** Decryption undoes encryption, block after block. *)
Lemma AES_cbc_decrypt_encrypt key iv n x :
  (16 * n <= length x)%nat ->
  fst (AES_cbc_encrypt false key iv n (fst (AES_cbc_encrypt true key iv n x)))
  = firstn (16 * n) x.
Proof.
  revert iv x. induction n as [ | n IH]; intros iv x Hx; [reflexivity | ].
  cbn [AES_cbc_encrypt].
  set (c := AES_encrypt key (xor_block (firstn 16 x) iv)).
  assert (Hc : length c = 16%nat) by apply AES_encrypt_length.
  specialize (IH c (skipn 16 x)).
  pose proof (AES_cbc_encrypt_length true key c n (skipn 16 x)) as Hlen.
  destruct (AES_cbc_encrypt true key c n (skipn 16 x)) as [os iv''].
  cbn [fst] in *.
  rewrite (firstn_app_exact c os 16 Hc), (skipn_app_exact c os 16 Hc).
  destruct (AES_cbc_encrypt false key c n os) as [ps iv3] eqn:E.
  cbn [fst] in *.
  rewrite IH by (rewrite length_skipn; lia).
  unfold c. rewrite AES_decrypt_encrypt by apply xor_block_length.
  rewrite xor_block_involutive by (rewrite length_firstn; lia).
  replace (16 * S n)%nat with (16 + 16 * n)%nat by lia.
  rewrite <- (firstn_skipn 16 x) at 3.
  rewrite firstn_app, length_firstn.
  replace (Nat.min 16 (length x)) with 16%nat by lia.
  rewrite firstn_firstn.
  replace (Nat.min (16 + 16 * n) 16) with 16%nat by lia.
  replace (16 + 16 * n - 16)%nat with (16 * n)%nat by lia.
  reflexivity.
Qed.

End Chaining.

(** ** The message authenticator *)

Lemma bind_step {A B} (m : M A) (f : A -> M B) t a t' r :
  m = (t, Ok a) -> f a = (t', r) -> bind m f = (t ++ t', r).
Proof. intros -> H. simpl. rewrite H. reflexivity. Qed.

Section Authenticator.
Context {P : Primitives}.

Lemma makeHMAC_ok secret data mac :
  result (makeHMAC secret data) = Ok mac ->
  trace (makeHMAC secret data) = hmac_trace (length data)
  /\ length mac = 32%nat.
Proof.
  unfold makeHMAC, front, HMAC_Init_ex, HMAC_Update, HMAC_Final. cbn.
  destruct (write _ 0 _) as [t r] eqn:E.
  pose proof (write_trace (repeat 0%N EVP_MAX_MD_SIZE) 0
                (HMAC_SHA256 (firstn ECIES_KEY_LENGTH secret)
                             (firstn (length data) data))) as Ht.
  rewrite E in Ht. cbn in Ht. subst t.
  destruct r as [v | | | ]; cbn; try discriminate.
  assert (Hv : length v = 64%nat).
  { erewrite write_length; [ | rewrite E; reflexivity ].
    apply repeat_length. }
  intros [= <-]. split.
  - unfold hmac_trace. rewrite Hv, repeat_length. reflexivity.
  - rewrite length_firstn, Hv. reflexivity.
Qed.

Lemma makeHMAC_length secret data mac :
  result (makeHMAC secret data) = Ok mac -> length mac = 32%nat.
Proof. intros H. apply (makeHMAC_ok secret data mac H). Qed.

Context {HP : PrimitivesOk P}.

Lemma makeHMAC_eq secret data :
  makeHMAC secret data =
  (hmac_trace (length data),
   Ok (HMAC_SHA256 (firstn ECIES_KEY_LENGTH secret) data)).
Proof.
  unfold makeHMAC, front, HMAC_Init_ex, HMAC_Update, HMAC_Final. cbn.
  rewrite firstn_all.
  rewrite write_in_bounds
    by (rewrite HMAC_SHA256_length, repeat_length; unfold EVP_MAX_MD_SIZE; lia).
  cbn. rewrite firstn_0. cbn [app].
  rewrite firstn_app_exact by apply HMAC_SHA256_length.
  rewrite length_app, HMAC_SHA256_length, length_skipn, repeat_length.
  reflexivity.
Qed.

End Authenticator.

(** ** The EVP layer *)

Lemma land_block_mask z : Z.land z block_mask = z mod 16.
Proof. change block_mask with (Z.ones 4). rewrite Z.land_ones by lia. reflexivity. Qed.

Lemma set_buf_set_iv_same ctx :
  ctx_buf ctx = [] -> set_buf (set_iv ctx (ctx_iv ctx)) [] = ctx.
Proof. destruct ctx; cbn. intros ->. reflexivity. Qed.

Lemma set_buf_nil ctx iv :
  ctx_buf ctx = [] -> set_buf (set_iv ctx iv) [] = set_iv ctx iv.
Proof. destruct ctx; cbn. intros ->. reflexivity. Qed.

Section EVP.
Context {P : Primitives}.

(** An update on a context that holds no partial block: the whole blocks of
    the input go through the cipher, the rest is kept. *)
Lemma EVP_EncryptUpdate_fresh ctx inp inl :
  ctx_buf ctx = [] -> 0 <= inl ->
  EVP_EncryptUpdate ctx inp inl =
  (1,
   set_buf
     (set_iv ctx (snd (AES_cbc_encrypt (ctx_encrypt ctx) (ctx_key ctx) (ctx_iv ctx)
                         (Z.to_nat (inl / 16)) inp)))
     (firstn (Z.to_nat (inl mod 16)) (skipn (Z.to_nat (16 * (inl / 16))) inp)),
   fst (AES_cbc_encrypt (ctx_encrypt ctx) (ctx_key ctx) (ctx_iv ctx)
          (Z.to_nat (inl / 16)) inp),
   16 * (inl / 16)).
Proof.
  intros Hbuf Hinl. unfold EVP_EncryptUpdate. cbv zeta.
  unfold buf_len. rewrite Hbuf.
  change (Z.of_nat (length (@nil byte))) with 0.
  change (0 =? 0) with true. cbn [andb negb]. cbv beta iota zeta.
  change (block_size - 1) with block_mask.
  rewrite !land_block_mask.
  destruct (Z.leb_spec inl 0) as [H0 | H0].
  - assert (inl = 0) by lia. subst inl.
    change (0 / 16) with 0. change (0 mod 16) with 0.
    change (Z.to_nat 0) with 0%nat. cbn [AES_cbc_encrypt fst snd].
    rewrite firstn_0, set_buf_set_iv_same by exact Hbuf. reflexivity.
  - destruct (Z.eqb_spec (inl mod 16) 0) as [Hm | Hm].
    + unfold do_cipher, block_size.
      destruct (AES_cbc_encrypt _ _ _ _ inp) as [o iv'] eqn:E.
      cbn [fst snd]. rewrite Hm. change (Z.to_nat 0) with 0%nat.
      rewrite firstn_0, set_buf_nil by exact Hbuf.
      replace (16 * (inl / 16)) with inl
        by (pose proof (Z.div_mod inl 16); lia).
      reflexivity.
    + replace (inl - inl mod 16) with (16 * (inl / 16))
        by (pose proof (Z.div_mod inl 16); lia).
      destruct (Z.gtb_spec (16 * (inl / 16)) 0) as [Hq | Hq].
      * unfold do_cipher, block_size.
        replace (16 * (inl / 16) / 16) with (inl / 16)
          by (rewrite Z.mul_comm, Z.div_mul; lia).
        destruct (AES_cbc_encrypt _ _ _ _ inp) as [o iv'] eqn:E.
        cbn [fst snd app]. unfold set_buf, set_iv.
        cbn [ctx_encrypt ctx_key ctx_iv ctx_buf ctx_final ctx_final_used].
        rewrite Z.add_0_l. reflexivity.
      * assert (Hz : inl / 16 = 0)
          by (pose proof (Z.div_pos inl 16); lia).
        rewrite Hz. change (Z.to_nat 0) with 0%nat.
        cbn [AES_cbc_encrypt fst snd app].
        unfold set_buf, set_iv.
        cbn [ctx_encrypt ctx_key ctx_iv ctx_buf ctx_final ctx_final_used].
        reflexivity.
Qed.

(** Finalisation pads the partial block up to a whole one and sends it
    through the cipher. *)
Lemma EVP_EncryptFinal_ex_eq ctx :
  (length (ctx_buf ctx) < 16)%nat ->
  EVP_EncryptFinal_ex ctx =
  (1,
   set_iv ctx (snd (AES_cbc_encrypt (ctx_encrypt ctx) (ctx_key ctx) (ctx_iv ctx) 1
                      (ctx_buf ctx ++ pkcs_padding (length (ctx_buf ctx))))),
   fst (AES_cbc_encrypt (ctx_encrypt ctx) (ctx_key ctx) (ctx_iv ctx) 1
          (ctx_buf ctx ++ pkcs_padding (length (ctx_buf ctx)))),
   16).
Proof.
  intros Hlen. unfold EVP_EncryptFinal_ex, do_cipher, buf_len, block_size, pkcs_padding.
  rewrite Nat.mod_small by exact Hlen.
  replace (Z.to_N (16 - Z.of_nat (length (ctx_buf ctx))))
    with (N.of_nat (16 - length (ctx_buf ctx))) by lia.
  replace (Z.to_nat (16 - Z.of_nat (length (ctx_buf ctx))))
    with (16 - length (ctx_buf ctx))%nat by lia.
  change (Z.to_nat (16 / 16)) with 1%nat.
  destruct (AES_cbc_encrypt _ _ _ 1 _) as [o iv']. reflexivity.
Qed.

End EVP.

(** ** Encryption *)

Lemma front_eq name v : front name v = ([EvFront name (length v)], Ok v).
Proof. reflexivity. Qed.

Lemma write_at_end pre k data off :
  off = length pre -> (length data <= k)%nat ->
  write (pre ++ repeat 0%N k) off data
  = ([], Ok ((pre ++ data) ++ repeat 0%N (k - length data))).
Proof.
  intros -> Hk. rewrite write_in_bounds
    by (rewrite length_app, repeat_length; lia).
  rewrite firstn_app_exact by reflexivity.
  rewrite skipn_app, skipn_all2 by lia. cbn [app].
  replace (length pre + length data - length pre)%nat with (length data) by lia.
  rewrite <- (repeat_length 0%N (length data)) at 1.
  replace (repeat 0%N k)
    with (repeat 0%N (length data) ++ repeat 0%N (k - length data))
    by (rewrite <- repeat_app; f_equal; lia).
  rewrite skipn_app_exact by reflexivity.
  rewrite <- app_assoc. reflexivity.
Qed.

Lemma write_at_start k data :
  (length data <= k)%nat ->
  write (repeat 0%N k) 0 data = ([], Ok (data ++ repeat 0%N (k - length data))).
Proof. intros Hk. exact (write_at_end [] k data 0 eq_refl Hk). Qed.

Lemma to_int_small z : - 2 ^ 31 <= z <= INT_MAX -> to_int z = z.
Proof.
  unfold to_int, INT_MAX. intros Hz.
  rewrite Z.mod_small by lia. lia.
Qed.

Lemma assert_true b : b = true -> assert b = ([], Ok tt).
Proof. intros ->. reflexivity. Qed.

Lemma resize_written (x : bytes) k n :
  n = length x -> resize (x ++ repeat 0%N k) n = x.
Proof.
  intros ->. unfold resize. rewrite firstn_app_exact by reflexivity.
  rewrite length_app.
  replace (length x - (length x + length (repeat 0%N k)))%nat with 0%nat by lia.
  apply app_nil_r.
Qed.

Lemma Z_div16_of_nat n : Z.of_nat n / 16 = Z.of_nat (n / 16).
Proof. rewrite Nat2Z.inj_div. reflexivity. Qed.

Lemma Z_mod16_of_nat n : Z.of_nat n mod 16 = Z.of_nat (n mod 16).
Proof. rewrite Nat2Z.inj_mod. reflexivity. Qed.

Lemma div_mod_16 n : (n = 16 * (n / 16) + n mod 16 /\ n mod 16 < 16)%nat.
Proof.
  split; [apply Nat.div_mod_eq | apply Nat.mod_upper_bound; lia].
Qed.

Section EnvelopeShape.
Context {P : Primitives} {HP : PrimitivesOk P}.

(** The stream under the cipher, cut where the three calls cut it: two
    blocks of MAC, the whole blocks of the plaintext, the padded rest. *)
Lemma cbc_encrypt_envelope key iv mac pt :
  length mac = 32%nat ->
  cbc_encrypt key iv (mac ++ pt ++ pkcs_padding (length pt)) =
  let c1 := AES_cbc_encrypt true key iv 2 mac in
  let c2 := AES_cbc_encrypt true key (snd c1) (length pt / 16) pt in
  let c3 := AES_cbc_encrypt true key (snd c2) 1
              (skipn (16 * (length pt / 16)) pt ++ pkcs_padding (length pt)) in
  fst c1 ++ fst c2 ++ fst c3.
Proof.
  intros Hmac. cbv zeta. unfold cbc_encrypt.
  destruct (div_mod_16 (length pt)) as [Hn Hr].
  set (q := (length pt / 16)%nat) in *. set (r := (length pt mod 16)%nat) in *.
  assert (Hpad : length (pkcs_padding (length pt)) = (16 - r)%nat)
    by (unfold pkcs_padding; apply repeat_length).
  replace (length (mac ++ pt ++ pkcs_padding (length pt)) / 16)%nat
    with (2 + (q + 1))%nat.
  2:{ rewrite !length_app, Hmac, Hpad.
      replace (32 + (length pt + (16 - r)))%nat with ((q + 3) * 16)%nat by lia.
      rewrite Nat.div_mul by lia. lia. }
  rewrite AES_cbc_encrypt_add. cbn [fst].
  rewrite (AES_cbc_encrypt_prefix true key iv 2 mac) by lia.
  change (16 * 2)%nat with 32%nat.
  rewrite skipn_app_exact by exact Hmac.
  rewrite AES_cbc_encrypt_add. cbn [fst].
  rewrite (AES_cbc_encrypt_prefix true key _ q pt) by lia.
  rewrite skipn_app_le by lia.
  reflexivity.
Qed.

End EnvelopeShape.

Ltac mstep lem := eapply bind_step; [ lem | ]; cbv beta.

Section Encryption.
Context {P : Primitives} {HP : PrimitivesOk P}.

Lemma encryptECIES_eq (A B : CKey) (pt iv : bytes) t secret :
  getECIESSecret A B = (t, Ok secret) ->
  length iv = 16%nat ->
  Z.of_nat (length pt) + 64 <= INT_MAX ->
  encryptECIES A B pt (Some iv)
  = (t ++ encrypt_trace (length pt), Ok (envelope secret iv pt)).
Proof.
  intros Hsec Hiv Hpt.
  enough (exists T R, encryptECIES A B pt (Some iv) = (t ++ T, R)
                      /\ T = encrypt_trace (length pt)
                      /\ R = Ok (envelope secret iv pt))
    as (T & R & -> & -> & ->) by reflexivity.
  do 2 eexists. split.
  - unfold encryptECIES.
    mstep ltac:(exact Hsec).
    mstep ltac:(apply makeHMAC_eq).
    mstep ltac:(reflexivity).
    unfold RAND_bytes. rewrite Hiv. cbn [Nat.eqb ECIES_ENC_BLK_SIZE negb Z.eqb Pos.eqb].
    mstep ltac:(reflexivity).
    unfold EVP_EncryptInit_ex, EVP_CipherInit_ex. cbv beta iota.
    cbn [negb Z.eqb Pos.eqb].
    unfold ECIES_ENC_BLK_SIZE, ECIES_HMAC_SIZE, ECIES_ENC_KEY_SIZE.
    rewrite (firstn_all2 (n := 16) iv) by lia.
    mstep ltac:(apply front_eq).
    mstep ltac:(apply (write_at_end []); [reflexivity | lia]).
    cbn [app]. rewrite Hiv.
    unfold capacity. rewrite length_app, repeat_length, Hiv.
    rewrite to_int_small by (unfold INT_MAX in *; lia).
    replace (Z.of_nat (16 + (length pt + 32 + 32 + 16 - 16)) - Z.of_nat 16 >? 0)
      with true by (symmetry; apply Z.gtb_lt; lia).
    mstep ltac:(reflexivity).
    mstep ltac:(apply front_eq).
    mstep ltac:(reflexivity).
    rewrite EVP_EncryptUpdate_fresh by first [reflexivity | lia].
    cbn [ctx_encrypt ctx_key ctx_iv ctx_buf ctx_final ctx_final_used].
    change (Z.of_nat 32 / 16) with 2. change (Z.of_nat 32 mod 16) with 0.
    change (Z.to_nat 2) with 2%nat. change (Z.to_nat 0) with 0%nat.
    rewrite firstn_0.
    set (key := firstn 32 secret). set (mac := HMAC_SHA256 _ pt).
    set (c1 := AES_cbc_encrypt true key iv 2 mac).
    assert (Hc1 : length (fst c1) = 32%nat)
      by (unfold c1; rewrite AES_cbc_encrypt_length; reflexivity).
    mstep ltac:(apply write_at_end; [rewrite Hiv; lia | rewrite Hc1; lia]).
    change (1 <? 0) with false. cbv iota.
    mstep ltac:(apply assert_true;
                rewrite !length_app, repeat_length, Hiv, Hc1;
                rewrite to_int_small by (unfold INT_MAX in *; lia);
                apply Z.gtb_lt; lia).
    mstep ltac:(apply front_eq).
    mstep ltac:(apply front_eq).
    mstep ltac:(reflexivity).
    rewrite to_int_small by (unfold INT_MAX in *; lia).
    rewrite EVP_EncryptUpdate_fresh by first [reflexivity | lia].
    cbn [ctx_encrypt ctx_key ctx_iv ctx_buf ctx_final ctx_final_used set_buf set_iv].
    rewrite Z_div16_of_nat, Z_mod16_of_nat.
    replace (16 * Z.of_nat (length pt / 16)) with (Z.of_nat (16 * (length pt / 16)))
      by lia.
    rewrite !Nat2Z.id.
    destruct (div_mod_16 (length pt)) as [Hn Hr].
    set (q := (length pt / 16)%nat) in *. set (r := (length pt mod 16)%nat) in *.
    set (c2 := AES_cbc_encrypt true key (snd c1) q pt).
    assert (Hc2 : length (fst c2) = (16 * q)%nat)
      by (unfold c2; apply AES_cbc_encrypt_length).
    cbv beta iota.
    mstep ltac:(apply write_at_end;
                [rewrite length_app, Hiv, Hc1; lia | rewrite Hc1, Hc2; lia]).
    change (1 <? 0) with false. cbv iota.
    mstep ltac:(apply front_eq).
    mstep ltac:(reflexivity).
    assert (Hrest : length (skipn (16 * q) pt) = r)
      by (rewrite length_skipn; lia).
    rewrite (firstn_all2 (n := r) (skipn (16 * q) pt)) by lia.
    rewrite EVP_EncryptFinal_ex_eq by (cbn [ctx_buf set_buf]; lia).
    cbn [ctx_encrypt ctx_key ctx_iv ctx_buf ctx_final ctx_final_used set_buf set_iv].
    replace (pkcs_padding (length (skipn (16 * q) pt)))
      with (pkcs_padding (length pt))
      by (unfold pkcs_padding; rewrite Hrest, (Nat.mod_small r 16) by lia;
          reflexivity).
    set (c3 := AES_cbc_encrypt true key (snd c2) 1
                 (skipn (16 * q) pt ++ pkcs_padding (length pt))).
    assert (Hc3 : length (fst c3) = 16%nat)
      by (unfold c3; rewrite AES_cbc_encrypt_length; reflexivity).
    cbv beta iota.
    mstep ltac:(apply write_at_end;
                [rewrite !length_app, Hiv, Hc1, Hc2; lia
                | rewrite Hc1, Hc2, Hc3; lia]).
    change (1 <? 0) with false. cbv iota.
    mstep ltac:(apply assert_true; apply Z.leb_le; lia).
    mstep ltac:(apply assert_true; apply Z.geb_le; lia).
    rewrite resize_written
      by (rewrite !length_app, Hiv, Hc1, Hc2, Hc3; lia).
    reflexivity.
  - split.
    + unfold encrypt_trace, hmac_trace. cbn [app].
      rewrite !length_app, !repeat_length, Hiv.
      rewrite !AES_cbc_encrypt_length.
      destruct (div_mod_16 (length pt)) as [Hn Hr].
      repeat match goal with
             | |- cons _ _ = cons _ _ => apply (f_equal2 (@cons event))
             | |- EvFront _ _ = EvFront _ _ => apply f_equal; lia
             | |- _ => reflexivity
             end.
    + f_equal. unfold envelope.
      rewrite cbc_encrypt_envelope by apply HMAC_SHA256_length.
      cbv zeta. rewrite <- !app_assoc. reflexivity.
Qed.

(** The length of an envelope. *)
Lemma envelope_length secret iv pt :
  length iv = 16%nat ->
  length (envelope secret iv pt) = (16 + 16 * ((32 + length pt) / 16 + 1))%nat.
Proof.
  intros Hiv. unfold envelope, cbc_encrypt.
  rewrite length_app, AES_cbc_encrypt_length, Hiv.
  rewrite !length_app, HMAC_SHA256_length.
  unfold pkcs_padding. rewrite repeat_length.
  destruct (div_mod_16 (length pt)) as [Hn Hr].
  set (q := (length pt / 16)%nat) in *. set (r := (length pt mod 16)%nat) in *.
  replace (32 + (length pt + (16 - r)))%nat with ((q + 3) * 16)%nat by lia.
  replace (32 + length pt)%nat with (r + (q + 2) * 16)%nat by lia.
  rewrite Nat.div_mul, Nat.div_add by lia.
  rewrite (Nat.div_small r 16) by lia. lia.
Qed.

End Encryption.

(** ** Decryption *)

Lemma forallb_ext {A} (f g : A -> bool) l :
  (forall x, f x = g x) -> forallb f l = forallb g l.
Proof.
  intros H. induction l as [ | x l IH]; [reflexivity | ].
  cbn. rewrite H, IH. reflexivity.
Qed.

(** A store that writes back what the buffer holds there. *)
Lemma write_same v off data :
  data = firstn (length data) (skipn off v) ->
  (off + length data <= length v)%nat ->
  write v off data = ([], Ok v).
Proof.
  intros Hd Hlen. rewrite write_in_bounds by exact Hlen.
  do 2 f_equal.
  rewrite Hd at 1. rewrite Nat.add_comm, <- skipn_skipn.
  rewrite firstn_skipn. apply firstn_skipn.
Qed.

Section EVPDecrypt.
Context {P : Primitives}.

(** An update on a context that holds a partial block, with enough input
    to complete it. *)
Lemma EVP_EncryptUpdate_partial ctx inp inl :
  (0 < length (ctx_buf ctx) < 16)%nat ->
  16 <= Z.of_nat (length (ctx_buf ctx)) + inl ->
  let j := (16 - length (ctx_buf ctx))%nat in
  let c1 := AES_cbc_encrypt (ctx_encrypt ctx) (ctx_key ctx) (ctx_iv ctx) 1
              (ctx_buf ctx ++ firstn j inp) in
  let inl1 := inl - Z.of_nat j in
  let c2 := AES_cbc_encrypt (ctx_encrypt ctx) (ctx_key ctx) (snd c1)
              (Z.to_nat (inl1 / 16)) (skipn j inp) in
  EVP_EncryptUpdate ctx inp inl =
  (1,
   set_buf (set_iv ctx (snd c2))
     (firstn (Z.to_nat (inl1 mod 16)) (skipn (Z.to_nat (16 * (inl1 / 16))) (skipn j inp))),
   fst c1 ++ fst c2,
   16 + 16 * (inl1 / 16)).
Proof.
  intros Hbuf Hinl. cbv zeta.
  unfold EVP_EncryptUpdate. cbv zeta. unfold buf_len, block_size.
  replace (inl <=? 0) with false by (symmetry; apply Z.leb_gt; lia).
  replace (Z.of_nat (length (ctx_buf ctx)) =? 0) with false
    by (symmetry; apply Z.eqb_neq; lia).
  replace (Z.of_nat (length (ctx_buf ctx)) + inl <? 16) with false
    by (symmetry; apply Z.ltb_ge; lia).
  cbn [andb negb]. cbv beta iota.
  unfold do_cipher, block_size.
  change (Z.to_nat (16 / 16)) with 1%nat.
  replace (Z.to_nat (16 - Z.of_nat (length (ctx_buf ctx))))
    with (16 - length (ctx_buf ctx))%nat by lia.
  replace (16 - Z.of_nat (length (ctx_buf ctx)))
    with (Z.of_nat (16 - length (ctx_buf ctx))) by lia.
  set (j := (16 - length (ctx_buf ctx))%nat).
  destruct (AES_cbc_encrypt _ _ _ 1 _) as [o1 iv1].
  cbn [fst snd]. cbv beta iota.
  change (16 - 1) with block_mask. rewrite !land_block_mask.
  set (inl1 := inl - Z.of_nat j).
  assert (H1 : 0 <= inl1) by (unfold inl1, j; lia).
  replace (inl1 - inl1 mod 16) with (16 * (inl1 / 16))
    by (pose proof (Z.div_mod inl1 16); lia).
  cbn [ctx_encrypt ctx_key ctx_iv set_iv].
  destruct (Z.gtb_spec (16 * (inl1 / 16)) 0) as [Hq | Hq].
  - replace (16 * (inl1 / 16) / 16) with (inl1 / 16)
      by (rewrite Z.mul_comm, Z.div_mul; lia).
    destruct (AES_cbc_encrypt _ _ iv1 _ _) as [o2 iv2].
    cbn [fst snd]. reflexivity.
  - assert (Hz : inl1 / 16 = 0) by (pose proof (Z.div_pos inl1 16); lia).
    rewrite Hz. change (Z.to_nat 0) with 0%nat.
    cbn [AES_cbc_encrypt fst snd]. destruct ctx; reflexivity.
Qed.

Lemma EVP_DecryptFinal_ex_eq ctx :
  ctx_buf ctx = [] -> ctx_final_used ctx = true ->
  length (ctx_final ctx) = 16%nat ->
  EVP_DecryptFinal_ex ctx =
  match padding_of (ctx_final ctx) with
  | Some n => (1, firstn (16 - n) (ctx_final ctx), Z.of_nat (16 - n))
  | None => (0, [], 0)
  end.
Proof.
  intros Hbuf Hused Hlen. unfold EVP_DecryptFinal_ex, padding_of, buf_len, block_size.
  cbv zeta. rewrite Hbuf, Hused. cbn [length negb orb].
  change (Z.of_nat 0 =? 0) with true. cbn [negb orb].
  rewrite (firstn_all2 (n := 16) (ctx_final ctx)) by lia.
  set (b := nth 15 (ctx_final ctx) 0%N).
  assert (Hz : Z.of_N b = Z.of_nat (N.to_nat b)) by lia.
  destruct (Nat.leb_spec 1 (N.to_nat b)) as [H1 | H1];
    [ | replace (Z.of_N b =? 0) with true by (symmetry; apply Z.eqb_eq; lia);
        reflexivity ].
  replace (Z.of_N b =? 0) with false by (symmetry; apply Z.eqb_neq; lia).
  destruct (Nat.leb_spec (N.to_nat b) 16) as [H2 | H2];
    [ | replace (Z.of_N b >? 16) with true by (symmetry; apply Z.gtb_lt; lia);
        reflexivity ].
  replace (Z.of_N b >? 16) with false
    by (symmetry; rewrite Z.gtb_ltb; apply Z.ltb_ge; lia).
  cbn [orb andb].
  replace (Z.to_nat (16 - Z.of_N b)) with (16 - N.to_nat b)%nat by lia.
  rewrite (forallb_ext (fun x => Z.of_N x =? Z.of_N b) (N.eqb (N.of_nat (N.to_nat b)))).
  2:{ intros x. rewrite N2Nat.id.
      destruct (N.eqb_spec b x) as [-> | Hne].
      - apply Z.eqb_refl.
      - apply Z.eqb_neq. lia. }
  destruct (forallb _ _); cbn [negb].
  - replace (16 - Z.of_N b) with (Z.of_nat (16 - N.to_nat b)) by lia.
    reflexivity.
  - reflexivity.
Qed.

End EVPDecrypt.

Section OpenEnvelope.
Context {P : Primitives}.

Lemma AES_cbc_decrypt_length key iv n inp :
  length (fst (AES_cbc_encrypt false key iv n inp)) = (16 * n)%nat.
Proof.
  revert iv inp. induction n as [ | n IH]; intros iv inp; [reflexivity | ].
  cbn [AES_cbc_encrypt].
  specialize (IH (firstn 16 inp) (skipn 16 inp)).
  destruct (AES_cbc_encrypt false key _ n (skipn 16 inp)) as [os iv''].
  cbn [fst] in *. rewrite length_app, IH, xor_block_length. lia.
Qed.

(** The first update of [decryptECIES]: 33 bytes in, the two blocks of the
    MAC out, one byte kept. *)
Lemma EVP_DecryptUpdate_mac ctx inp :
  ctx_buf ctx = [] -> ctx_final_used ctx = false -> (33 <= length inp)%nat ->
  let c := AES_cbc_encrypt (ctx_encrypt ctx) (ctx_key ctx) (ctx_iv ctx) 2 inp in
  EVP_DecryptUpdate ctx inp 33 =
  (1,
   set_final (set_buf (set_iv ctx (snd c)) (firstn 1 (skipn 32 inp)))
     (ctx_final ctx) false,
   fst c, 32).
Proof.
  intros Hbuf Hused Hlen. cbv zeta. unfold EVP_DecryptUpdate. cbv zeta.
  change (33 <=? 0) with false. cbv iota.
  rewrite EVP_EncryptUpdate_fresh by first [exact Hbuf | lia].
  change (33 / 16) with 2. change (33 mod 16) with 1. change (16 * 2) with 32.
  change (Z.to_nat 2) with 2%nat. change (Z.to_nat 1) with 1%nat.
  change (Z.to_nat 32) with 32%nat.
  change (1 =? 0) with false. cbv iota.
  unfold buf_len. cbn [ctx_buf set_buf].
  rewrite length_firstn, length_skipn.
  replace (Nat.min 1 (length inp - 32)) with 1%nat by lia.
  change (Z.of_nat 1 =? 0) with false. rewrite andb_false_r. cbv iota.
  rewrite Hused. cbn [app ctx_final set_buf set_iv]. reflexivity.
Qed.

(** The second update: the byte kept completes a block, the whole blocks
    that follow go through, and when nothing is left over the last block
    decrypted is held back for the unpadding. *)
Lemma EVP_DecryptUpdate_rest ctx inp inl :
  length (ctx_buf ctx) = 1%nat -> ctx_final_used ctx = false ->
  15 <= inl -> (Z.to_nat inl <= length inp)%nat ->
  let c1 := AES_cbc_encrypt (ctx_encrypt ctx) (ctx_key ctx) (ctx_iv ctx) 1
              (ctx_buf ctx ++ firstn 15 inp) in
  let inl1 := inl - 15 in
  let m := Z.to_nat (inl1 / 16) in
  let c2 := AES_cbc_encrypt (ctx_encrypt ctx) (ctx_key ctx) (snd c1) m (skipn 15 inp) in
  let o := fst c1 ++ fst c2 in
  EVP_DecryptUpdate ctx inp inl =
  (1,
   (if inl1 mod 16 =? 0
    then set_final (set_buf (set_iv ctx (snd c2)) [])
           (firstn 16 (skipn (16 * m) o)) true
    else set_final
           (set_buf (set_iv ctx (snd c2))
              (firstn (Z.to_nat (inl1 mod 16)) (skipn (16 * m) (skipn 15 inp))))
           (ctx_final ctx) false),
   o,
   (if inl1 mod 16 =? 0 then 16 * (inl1 / 16) else 16 + 16 * (inl1 / 16))).
Proof.
  intros Hbuf Hused Hinl Hinp. cbv zeta. unfold EVP_DecryptUpdate. cbv zeta.
  replace (inl <=? 0) with false by (symmetry; apply Z.leb_gt; lia).
  cbv iota.
  pose proof (EVP_EncryptUpdate_partial ctx inp inl) as E.
  cbv zeta in E. rewrite Hbuf in E.
  change (16 - 1)%nat with 15%nat in E. change (Z.of_nat 15) with 15 in E.
  rewrite E by lia. clear E.
  set (inl1 := inl - 15).
  assert (H1 : 0 <= inl1) by (unfold inl1; lia).
  pose proof (Z.mod_pos_bound inl1 16 ltac:(lia)) as Hmod.
  pose proof (Z.div_mod inl1 16 ltac:(lia)) as Hdm.
  assert (Hq : 0 <= inl1 / 16) by (apply Z.div_pos; lia).
  replace (Z.to_nat (16 * (inl1 / 16))) with (16 * Z.to_nat (inl1 / 16))%nat by lia.
  change (1 =? 0) with false. cbv iota.
  unfold buf_len, block_size. cbn [ctx_buf set_buf].
  rewrite length_firstn, !length_skipn.
  replace (Nat.min (Z.to_nat (inl1 mod 16))
             (length inp - 15 - 16 * Z.to_nat (inl1 / 16)))
    with (Z.to_nat (inl1 mod 16)) by (unfold inl1 in *; lia).
  rewrite Hused. cbn [app].
  change (16 >? 1) with true. cbn [andb].
  replace (Z.of_nat (Z.to_nat (inl1 mod 16)) =? 0) with (inl1 mod 16 =? 0)
    by (f_equal; lia).
  destruct (Z.eqb_spec (inl1 mod 16) 0) as [Hm | Hm].
  - rewrite Hm. change (Z.to_nat 0) with 0%nat. rewrite firstn_0.
    replace (Z.to_nat (16 + 16 * (inl1 / 16) - 16))
      with (16 * Z.to_nat (inl1 / 16))%nat by lia.
    replace (16 + 16 * (inl1 / 16) - 16) with (16 * (inl1 / 16)) by lia.
    unfold set_final, set_buf, set_iv.
    cbn [ctx_encrypt ctx_key ctx_iv ctx_buf ctx_final ctx_final_used].
    reflexivity.
  - unfold set_final, set_buf, set_iv.
    cbn [ctx_encrypt ctx_key ctx_iv ctx_buf ctx_final ctx_final_used].
    reflexivity.
Qed.

End OpenEnvelope.

Lemma padding_of_bounds blk n : padding_of blk = Some n -> (1 <= n <= 16)%nat.
Proof.
  unfold padding_of.
  destruct (Nat.leb_spec 1 (N.to_nat (nth 15 blk 0%N))); cbn [andb];
    [ | discriminate ].
  destruct (Nat.leb_spec (N.to_nat (nth 15 blk 0%N)) 16); cbn [andb];
    [ | discriminate ].
  destruct (forallb _ _); [ | discriminate ].
  intros [= <-]. lia.
Qed.

Section OpenEnvelopeEq.
Context {P : Primitives}.

(** The stream under the cipher, cut where the two updates of
    [decryptECIES] cut it. *)
Lemma cbc_decrypt_split key ct :
  (64 <= length ct)%nat ->
  let body := skipn 16 ct in
  let c := AES_cbc_encrypt false key (firstn 16 ct) 2 body in
  let c1 := AES_cbc_encrypt false key (snd c) 1
              (firstn 1 (skipn 32 body) ++ firstn 15 (skipn 49 ct)) in
  let c2 := AES_cbc_encrypt false key (snd c1) ((length ct - 64) / 16)
              (skipn 15 (skipn 49 ct)) in
  cbc_decrypt key (firstn 16 ct) body = fst c ++ fst c1 ++ fst c2.
Proof.
  intros HL. cbv zeta. unfold cbc_decrypt.
  destruct (div_mod_16 (length ct - 64)) as [Hn Hr].
  set (m := ((length ct - 64) / 16)%nat) in *.
  set (r := ((length ct - 64) mod 16)%nat) in *.
  replace (length (skipn 16 ct) / 16)%nat with (2 + (1 + m))%nat.
  2:{ rewrite length_skipn.
      replace (length ct - 16)%nat with (r + (m + 3) * 16)%nat by lia.
      rewrite Nat.div_add by lia. rewrite (Nat.div_small r 16) by lia. lia. }
  rewrite AES_cbc_encrypt_add. cbn [fst].
  rewrite AES_cbc_encrypt_add. cbn [fst].
  change (16 * 2)%nat with 32%nat. change (16 * 1)%nat with 16%nat.
  rewrite !skipn_skipn.
  change (15 + 49)%nat with 64%nat. change (16 + 32 + 16)%nat with 64%nat.
  change (32 + 16)%nat with 48%nat.
  assert (E : firstn 1 (skipn 48 ct) ++ firstn 15 (skipn 49 ct)
              = firstn 16 (skipn 48 ct)).
  { pose proof (firstn_add (skipn 48 ct) 1 15) as E'.
    rewrite skipn_skipn in E'. symmetry. apply E'.
    rewrite length_skipn. lia. }
  rewrite E.
  assert (E1 : forall iv', AES_cbc_encrypt false key iv' 1 (skipn 48 ct)
                           = AES_cbc_encrypt false key iv' 1 (firstn 16 (skipn 48 ct))).
  { intros iv'. rewrite <- (firstn_skipn 16 (skipn 48 ct)) at 1.
    apply AES_cbc_encrypt_prefix. rewrite length_firstn, length_skipn. lia. }
  rewrite !E1. change (16 + 48)%nat with 64%nat.
  reflexivity.
Qed.

End OpenEnvelopeEq.

Section OpenEnvelopeWalk.
Context {P : Primitives}.

Lemma open_envelope_eq secret ct :
  (64 <= length ct)%nat -> Z.of_nat (length ct) <= INT_MAX ->
  open_envelope secret ct = (open_trace (length ct), unseal secret ct).
Proof.
  intros HL Hmax.
  enough (exists T, open_envelope secret ct = (T, unseal secret ct)
                    /\ T = open_trace (length ct))
    as (T & -> & ->) by reflexivity.
  eexists. split.
  - unfold open_envelope.
    unfold ECIES_ENC_BLK_SIZE, ECIES_HMAC_SIZE, ECIES_ENC_KEY_SIZE.
    replace (length ct <? 2 * 16 + 32)%nat with false
      by (symmetry; apply Nat.ltb_ge; lia).
    mstep ltac:(apply front_eq).
    mstep ltac:(reflexivity).
    unfold EVP_DecryptInit_ex, EVP_CipherInit_ex. cbv beta iota.
    cbn [negb Z.eqb Pos.eqb].
    unfold ECIES_ENC_BLK_SIZE, ECIES_HMAC_SIZE, ECIES_ENC_KEY_SIZE.
    rewrite firstn_firstn. change (Nat.min 16 16) with 16%nat.
    mstep ltac:(apply front_eq).
    mstep ltac:(reflexivity).
    change (Z.of_nat 32 + 1) with 33.
    rewrite EVP_DecryptUpdate_mac
      by first [reflexivity | rewrite length_skipn; lia].
    cbn [ctx_encrypt ctx_key ctx_iv ctx_buf ctx_final ctx_final_used].
    set (key := firstn 32 secret). set (body := skipn 16 ct).
    set (c := AES_cbc_encrypt false key (firstn 16 ct) 2 body).
    assert (Hc : length (fst c) = 32%nat)
      by (unfold c; rewrite AES_cbc_decrypt_length; reflexivity).
    cbv beta iota.
    mstep ltac:(apply (write_at_end [] 32); [reflexivity | rewrite Hc; lia]).
    change (Z.of_nat 32) with 32.
    cbn [negb orb Z.eqb Pos.eqb]. cbv iota.
    mstep ltac:(apply front_eq).
    mstep ltac:(apply front_eq).
    mstep ltac:(reflexivity).
    rewrite to_int_small by (unfold INT_MAX in *; lia).
    rewrite EVP_DecryptUpdate_rest;
      [ | cbn [ctx_buf set_final set_buf]; unfold body;
          rewrite length_firstn, !length_skipn; lia
        | reflexivity | lia | rewrite length_skipn; lia ].
    cbn [ctx_encrypt ctx_key ctx_iv ctx_buf ctx_final ctx_final_used
         set_final set_buf set_iv].
    replace (Z.of_nat (length ct - 16 - 32 - 1) - 15)
      with (Z.of_nat (length ct - 64)) by lia.
    rewrite Z_div16_of_nat, Z_mod16_of_nat, Nat2Z.id.
    destruct (div_mod_16 (length ct - 64)) as [Hn Hr].
    set (m := ((length ct - 64) / 16)%nat) in *.
    set (r := ((length ct - 64) mod 16)%nat) in *.
    change (16 + 32 + 1)%nat with 49%nat.
    set (c1 := AES_cbc_encrypt false key (snd c) 1
                 (firstn 1 (skipn 32 body) ++ firstn 15 (skipn 49 ct))).
    set (c2 := AES_cbc_encrypt false key (snd c1) m (skipn 15 (skipn 49 ct))).
    set (o := fst c1 ++ fst c2).
    assert (Ho : length o = (16 + 16 * m)%nat).
    { unfold o, c1, c2. rewrite length_app, !AES_cbc_decrypt_length. lia. }
    cbv beta iota.
    mstep ltac:(apply (write_at_end [] (length ct - 32 - 16));
                [reflexivity | rewrite Ho; lia]).
    cbn [negb Z.eqb Pos.eqb app]. cbv iota.
    mstep ltac:(apply front_eq).
    mstep ltac:(reflexivity).
    rewrite Hc. change (repeat 0%N (32 - 32)) with (@nil N). rewrite app_nil_r.
    assert (Hunseal : unseal secret ct =
                      if (r =? 0)%nat
                      then match pkcs_unpad o with
                           | Some pt => Ok (fst c, pt)
                           | None => Throw "plaintext had bad padding"
                           end
                      else Throw "plaintext had bad padding").
    { unfold unseal. cbv zeta.
      pose proof (cbc_decrypt_split key ct HL) as Hsplit. cbv zeta in Hsplit.
      fold body c c1 in Hsplit. fold m in Hsplit. fold c2 o in Hsplit.
      change (firstn ECIES_ENC_KEY_SIZE secret) with key.
      fold body. rewrite Hsplit.
      rewrite firstn_app_exact, skipn_app_exact by exact Hc.
      replace (length ct) with (r + (m + 4) * 16)%nat at 1 by lia.
      rewrite Nat.Div0.mod_add, Nat.mod_small by lia. reflexivity. }
    rewrite Hunseal. clear Hunseal.
    unfold EVP_DecryptFinal.
    destruct (Nat.eqb_spec r 0) as [Hr0 | Hr0].
    + rewrite Hr0. change (Z.of_nat 0 =? 0) with true. cbv iota.
      assert (Hfin : firstn 16 (skipn (16 * m) o) = skipn (16 * m) o)
        by (apply firstn_all2; rewrite length_skipn; lia).
      rewrite EVP_DecryptFinal_ex_eq;
        [ | reflexivity | reflexivity
          | cbn [ctx_final set_final]; rewrite Hfin, length_skipn; lia ].
      cbn [ctx_final set_final]. rewrite Hfin.
      replace (length ct - 32 - 16 - length o)%nat with 0%nat by lia.
      change (repeat 0%N 0) with (@nil N). rewrite app_nil_r.
      unfold pkcs_unpad.
      replace (length o - 16)%nat with (16 * m)%nat by lia.
      destruct (padding_of (skipn (16 * m) o)) as [n | ] eqn:Hpad.
      * pose proof (padding_of_bounds _ _ Hpad) as Hn16.
        mstep ltac:(apply write_same;
                    [ rewrite length_firstn, length_skipn;
                      replace (Z.to_nat (16 * Z.of_nat m)) with (16 * m)%nat by lia;
                      f_equal; lia
                    | rewrite length_firstn, length_skipn; lia ]).
        cbn [negb Z.eqb Pos.eqb]. cbv iota.
        unfold ret. apply (f_equal2 pair); [reflexivity | ].
        do 2 f_equal. unfold resize.
        replace (Z.to_nat (Z.of_nat (16 - n) + 16 * Z.of_nat m))
          with (length o - n)%nat by lia.
        replace (length o - n - length o)%nat with 0%nat by lia.
        change (repeat 0%N 0) with (@nil N). apply app_nil_r.
      * mstep ltac:(apply write_in_bounds; cbn [length]; lia).
        reflexivity.
    + replace (Z.of_nat r =? 0) with false by (symmetry; apply Z.eqb_neq; lia).
      cbv iota.
      unfold EVP_DecryptFinal_ex. cbv zeta.
      cbn [ctx_final_used set_final negb]. rewrite orb_true_r.
      cbv iota.
      mstep ltac:(apply write_in_bounds; cbn [length];
                  rewrite length_app, repeat_length; lia).
      reflexivity.
  - unfold open_trace. cbn [app].
    repeat first [ rewrite length_app | rewrite repeat_length
                 | rewrite AES_cbc_decrypt_length ].
    destruct (div_mod_16 (length ct - 64)) as [Hn Hr].
    repeat match goal with
           | |- cons _ _ = cons _ _ => apply (f_equal2 (@cons event))
           | |- EvFront _ _ = EvFront _ _ => apply f_equal; lia
           | |- _ => reflexivity
           end.
Qed.

End OpenEnvelopeWalk.

(** ** Padding and comparison *)

Lemma forallb_repeat {A} (f : A -> bool) a n :
  f a = true -> forallb f (repeat a n) = true.
Proof.
  intros H. induction n as [ | n IH]; [reflexivity | ].
  change (repeat a (S n)) with (a :: repeat a n).
  cbn [forallb]. rewrite H, IH. reflexivity.
Qed.

Lemma pkcs_padding_length n :
  length (pkcs_padding n) = (16 - n mod 16)%nat.
Proof. apply repeat_length. Qed.

Lemma pkcs_unpad_padding (pt : bytes) :
  pkcs_unpad (pt ++ pkcs_padding (length pt)) = Some pt.
Proof.
  destruct (div_mod_16 (length pt)) as [Hn Hr].
  set (q := (length pt / 16)%nat) in *.
  assert (Hpad : length (pkcs_padding (length pt)) = (16 - length pt mod 16)%nat)
    by apply pkcs_padding_length.
  set (r := (length pt mod 16)%nat) in *.
  assert (Hrest : length (skipn (16 * q) pt) = r) by (rewrite length_skipn; lia).
  assert (Hshape : pkcs_padding (length pt)
                   = repeat (N.of_nat (16 - r)) (16 - r)) by reflexivity.
  unfold pkcs_unpad. rewrite length_app, Hpad.
  replace (length pt + (16 - r) - 16)%nat with (16 * q)%nat by lia.
  rewrite skipn_app_le by lia.
  rewrite Hshape.
  unfold padding_of.
  rewrite app_nth2 by lia. rewrite Hrest.
  rewrite nth_repeat_lt by lia.
  rewrite Nat2N.id.
  replace (1 <=? 16 - r)%nat with true by (symmetry; apply Nat.leb_le; lia).
  replace (16 - r <=? 16)%nat with true by (symmetry; apply Nat.leb_le; lia).
  replace (16 - (16 - r))%nat with r by lia.
  rewrite skipn_app_exact by exact Hrest.
  rewrite forallb_repeat by apply N.eqb_refl.
  cbn [andb].
  replace (length pt + (16 - r) - (16 - r))%nat with (length pt) by lia.
  rewrite firstn_app_exact by reflexivity. reflexivity.
Qed.

Lemma uint256_ne_fold (a b : bytes) acc :
  length a = length b ->
  fold_left (fun acc xy => N.lor acc (N.lxor (fst xy) (snd xy)))
            (combine a b) acc = 0%N
  <-> acc = 0%N /\ a = b.
Proof.
  revert b acc. induction a as [ | x a IH]; intros [ | y b] acc Hlen;
    try discriminate.
  - cbn. split; [intros ->; split; reflexivity | intros [-> _]; reflexivity].
  - cbn [combine fold_left fst snd]. injection Hlen as Hlen.
    rewrite (IH b _ Hlen), N.lor_eq_0_iff, N.lxor_eq_0_iff.
    split.
    + intros [[-> ->] ->]. split; reflexivity.
    + intros [-> [= -> ->]]. repeat split; reflexivity.
Qed.

Lemma uint256_ne_true (a b : bytes) :
  length a = length b -> (uint256_ne a b = true <-> a <> b).
Proof.
  intros Hlen. unfold uint256_ne.
  pose proof (uint256_ne_fold a b 0%N Hlen) as H.
  destruct (N.eqb_spec
              (fold_left (fun acc xy => N.lor acc (N.lxor (fst xy) (snd xy)))
                         (combine a b) 0%N) 0%N) as [E | E]; cbn [negb].
  - split; [discriminate | ]. intros Hne. exfalso. apply Hne. tauto.
  - split; [ | reflexivity ]. intros _ Hab. apply E. tauto.
Qed.

Lemma uint256_ne_same (a : bytes) : uint256_ne a a = false.
Proof.
  destruct (uint256_ne a a) eqn:E; [ | reflexivity ].
  apply uint256_ne_true in E; [ | reflexivity ]. exfalso. apply E. reflexivity.
Qed.

(** The comparison as it runs: every position the two operands share is
    examined, in order, and the verdict is that of [uint256_ne]. *)
Lemma uint256_ne_from_eq (a b : bytes) i acc :
  uint256_ne_from i a b acc =
  (map EvByte (seq i (Nat.min (length a) (length b))),
   Ok (negb (fold_left (fun acc xy => N.lor acc (N.lxor (fst xy) (snd xy)))
                       (combine a b) acc =? 0)%N)).
Proof.
  revert b i acc. induction a as [ | x a IH]; intros [ | y b] i acc;
    try reflexivity.
  cbn [uint256_ne_from combine fold_left fst snd length Nat.min seq map].
  rewrite (IH b (S i)). reflexivity.
Qed.

Lemma uint256_ne_run_eq (a b : bytes) :
  length a = 32%nat -> length b = 32%nat ->
  uint256_ne_run a b = (map EvByte (seq 0 32), Ok (uint256_ne a b)).
Proof.
  intros Ha Hb. unfold uint256_ne_run, uint256_ne.
  rewrite uint256_ne_from_eq, Ha, Hb. reflexivity.
Qed.

Lemma uint256_ne_run_result (a b : bytes) :
  result (uint256_ne_run a b) = Ok (uint256_ne a b).
Proof. unfold uint256_ne_run. rewrite uint256_ne_from_eq. reflexivity. Qed.

(** ** Opening what was sealed *)

Section RoundTrip.
Context {P : Primitives} {HP : PrimitivesOk P}.

Lemma unseal_envelope secret iv pt :
  length iv = 16%nat ->
  unseal secret (envelope secret iv pt)
  = Ok (HMAC_SHA256 (firstn ECIES_KEY_LENGTH secret) pt, pt).
Proof.
  intros Hiv. unfold unseal. cbv zeta.
  rewrite envelope_length by exact Hiv.
  replace (16 + 16 * ((32 + length pt) / 16 + 1))%nat
    with (0 + ((32 + length pt) / 16 + 2) * 16)%nat by lia.
  rewrite Nat.Div0.mod_add. change (0 mod 16 =? 0)%nat with true. cbv iota.
  unfold envelope. cbv zeta.
  rewrite firstn_app_exact, skipn_app_exact by exact Hiv.
  set (key := firstn ECIES_ENC_KEY_SIZE secret).
  set (mac := HMAC_SHA256 (firstn ECIES_KEY_LENGTH secret) pt).
  assert (Hmac : length mac = 32%nat) by apply HMAC_SHA256_length.
  set (x := mac ++ pt ++ pkcs_padding (length pt)).
  destruct (div_mod_16 (length pt)) as [Hn Hr].
  assert (Hx : length x = (16 * (length pt / 16 + 3))%nat).
  { unfold x. rewrite !length_app, Hmac, pkcs_padding_length. lia. }
  assert (Hxq : (length x / 16 = length pt / 16 + 3)%nat).
  { rewrite Hx, Nat.mul_comm, Nat.div_mul by lia. reflexivity. }
  unfold cbc_decrypt, cbc_encrypt.
  rewrite AES_cbc_encrypt_length, Hxq.
  replace (16 * (length pt / 16 + 3) / 16)%nat with (length pt / 16 + 3)%nat
    by (rewrite Nat.mul_comm, Nat.div_mul; lia).
  rewrite AES_cbc_decrypt_encrypt by lia.
  rewrite firstn_all2 by lia.
  unfold x. rewrite firstn_app_exact, skipn_app_exact by exact Hmac.
  rewrite pkcs_unpad_padding. reflexivity.
Qed.

Lemma decryptECIES_envelope (A B : CKey) t secret iv pt :
  getECIESSecret B A = (t, Ok secret) ->
  length iv = 16%nat ->
  Z.of_nat (length pt) + 64 <= INT_MAX ->
  result (decryptECIES B A (envelope secret iv pt)) = Ok pt.
Proof.
  intros Hsec Hiv Hpt.
  pose proof (envelope_length secret iv pt Hiv) as Hlen.
  destruct (div_mod_16 (32 + length pt)) as [Hn Hr].
  unfold decryptECIES.
  rewrite result_bind, Hsec. cbn [result snd].
  rewrite result_bind, open_envelope_eq by (unfold INT_MAX in *; lia).
  cbn [result snd]. rewrite unseal_envelope by exact Hiv.
  rewrite result_bind, makeHMAC_eq. cbn [result snd].
  rewrite result_bind. cbn [result snd emit].
  rewrite result_bind, uint256_ne_run_result, uint256_ne_same. reflexivity.
Qed.

End RoundTrip.

(** ** What a successful encryption went through *)

Lemma to_int_range z : - 2 ^ 31 <= to_int z <= INT_MAX.
Proof.
  unfold to_int, INT_MAX.
  pose proof (Z.mod_pos_bound (z + 2 ^ 31) (2 ^ 32) ltac:(lia)). lia.
Qed.

(** A value beyond [INT_MAX] that converts to a positive [int] has wrapped
    at least once. *)
Lemma to_int_positive_wrapped z :
  INT_MAX < z -> 0 < to_int z -> 2 ^ 32 <= z.
Proof.
  unfold to_int, INT_MAX. intros Hz Hpos.
  pose proof (Z.div_mod (z + 2 ^ 31) (2 ^ 32) ltac:(lia)) as Hdm.
  pose proof (Z.mod_pos_bound (z + 2 ^ 31) (2 ^ 32) ltac:(lia)) as Hb.
  assert (0 < (z + 2 ^ 31) / 2 ^ 32) by (apply Z.div_str_pos; lia).
  lia.
Qed.

Lemma emit_eq e : emit e = ([e], Ok tt).
Proof. reflexivity. Qed.

Ltac rstep lem := rewrite result_bind, lem; cbn [result snd].
Ltac estep := rewrite result_bind; cbn [result snd emit].

Section EncryptionInversion.
Context {P : Primitives} {HP : PrimitivesOk P}.

(** An update on a context without partial block, whatever the length
    passed: what matters for the accounting of the output. *)
Lemma EVP_EncryptUpdate_fresh_any ctx inp w :
  ctx_buf ctx = [] ->
  exists r ctx' o,
    EVP_EncryptUpdate ctx inp w = (r, ctx', o, Z.of_nat (length o))
    /\ 0 <= r
    /\ ctx_encrypt ctx' = ctx_encrypt ctx
    /\ (length (ctx_buf ctx') < 16)%nat
    /\ Z.of_nat (length o) <= Z.max 0 w.
Proof.
  intros Hbuf. destruct (Z.leb_spec w 0) as [Hw | Hw].
  - exists (if w =? 0 then 1 else 0), ctx, [].
    unfold EVP_EncryptUpdate.
    replace (w <=? 0) with true by (symmetry; apply Z.leb_le; lia).
    rewrite Hbuf. cbn [length]. repeat split; try lia.
    destruct (w =? 0); lia.
  - rewrite EVP_EncryptUpdate_fresh by first [exact Hbuf | lia].
    pose proof (Z.mod_pos_bound w 16 ltac:(lia)) as Hmod.
    pose proof (Z.div_mod w 16 ltac:(lia)) as Hdm.
    assert (Hq : 0 <= w / 16) by (apply Z.div_pos; lia).
    do 3 eexists. split; [ | split; [ | split; [ | split ] ] ].
    + rewrite AES_cbc_encrypt_length.
      replace (Z.of_nat (16 * Z.to_nat (w / 16))) with (16 * (w / 16)) by lia.
      reflexivity.
    + lia.
    + reflexivity.
    + cbn [ctx_buf set_buf]. rewrite length_firstn. lia.
    + rewrite AES_cbc_encrypt_length. lia.
Qed.

Lemma encryptECIES_ok_inv (A B : CKey) pt entropy ct :
  result (encryptECIES A B pt entropy) = Ok ct ->
  exists t secret iv,
    getECIESSecret A B = (t, Ok secret) /\ entropy = Some iv
    /\ length iv = 16%nat /\ Z.of_nat (length pt) + 64 <= INT_MAX.
Proof.
  unfold encryptECIES. rewrite result_bind.
  destruct (getECIESSecret A B) as [t [secret | | | ]] eqn:Hsec;
    cbn [result snd]; try discriminate.
  rstep makeHMAC_eq. estep.
  unfold RAND_bytes.
  destruct entropy as [iv | ]; [ | discriminate ].
  destruct (Nat.eqb_spec (length iv) ECIES_ENC_BLK_SIZE) as [Hiv | Hiv];
    [ | discriminate ].
  unfold ECIES_ENC_BLK_SIZE in Hiv.
  intros Hok. exists t, secret, iv. repeat split; try assumption.
  destruct (Z.leb_spec (Z.of_nat (length pt) + 64) INT_MAX) as [Hin | Hout];
    [ exact Hin | exfalso ].
  revert Hok. cbn [negb Z.eqb Pos.eqb].
  estep.
  unfold EVP_EncryptInit_ex, EVP_CipherInit_ex. cbv beta iota.
  cbn [negb Z.eqb Pos.eqb].
  unfold ECIES_ENC_BLK_SIZE, ECIES_HMAC_SIZE, ECIES_ENC_KEY_SIZE.
  rewrite (firstn_all2 (n := 16) iv) by lia.
  rstep front_eq.
  rewrite result_bind, write_at_start by lia.
  cbn [result snd]. rewrite Hiv.
  unfold capacity. rewrite length_app, repeat_length, Hiv.
  rewrite result_bind. unfold assert at 1.
  destruct (Z.gtb_spec
              (to_int (Z.of_nat (16 + (length pt + 32 + 32 + 16 - 16)) - Z.of_nat 16)) 0)
    as [Ha1 | Ha1]; [ | discriminate ].
  cbn [result snd ret].
  apply to_int_positive_wrapped in Ha1; [ | lia ].
  pose proof (to_int_range (Z.of_nat (length pt))) as Hw.
  unfold INT_MAX in Hw, Hout.
  rstep front_eq. estep.
  rewrite EVP_EncryptUpdate_fresh by first [reflexivity | lia].
  cbn [ctx_encrypt ctx_key ctx_iv ctx_buf ctx_final ctx_final_used].
  change (Z.of_nat 32 / 16) with 2. change (Z.of_nat 32 mod 16) with 0.
  change (Z.to_nat 2) with 2%nat. change (Z.to_nat 0) with 0%nat.
  rewrite firstn_0.
  set (key := firstn 32 secret). set (mac := HMAC_SHA256 _ pt).
  set (c1 := AES_cbc_encrypt true key iv 2 mac).
  assert (Hc1 : length (fst c1) = 32%nat)
    by (unfold c1; rewrite AES_cbc_encrypt_length; reflexivity).
  cbv beta iota.
  rewrite result_bind, write_at_end by (rewrite ?Hiv, ?Hc1; lia).
  cbn [result snd]. change (1 <? 0) with false. cbv iota.
  rewrite result_bind. unfold assert at 1.
  destruct (_ >? 0); [ | discriminate ]. cbn [result snd ret].
  rstep front_eq. rstep front_eq. estep.
  destruct (EVP_EncryptUpdate_fresh_any
              (set_buf (set_iv (mkCTX true key iv [] [] false) (snd c1)) [])
              pt (to_int (Z.of_nat (length pt))) eq_refl)
    as (r2 & ctx2 & o2 & E2 & Hr2 & Henc2 & Hbuf2 & Ho2).
  rewrite E2. cbv beta iota.
  rewrite result_bind, write_at_end
    by (rewrite ?length_app, ?Hiv, ?Hc1; lia).
  cbn [result snd].
  replace (r2 <? 0) with false by (symmetry; apply Z.ltb_ge; lia).
  cbv iota.
  rstep front_eq. estep.
  rewrite EVP_EncryptFinal_ex_eq by exact Hbuf2.
  set (c3 := AES_cbc_encrypt (ctx_encrypt ctx2) _ _ 1 _).
  assert (Hc3 : length (fst c3) = 16%nat)
    by (unfold c3; rewrite AES_cbc_encrypt_length; reflexivity).
  cbv beta iota.
  rewrite result_bind, write_at_end
    by (rewrite ?length_app, ?Hiv, ?Hc1, ?Hc3; lia).
  cbn [result snd]. change (1 <? 0) with false. cbv iota.
  rewrite result_bind. unfold assert at 1.
  destruct (_ <=? _); [ | discriminate ]. cbn [result snd ret].
  rewrite result_bind. unfold assert at 1.
  destruct (Z.geb_spec
              (Z.of_nat 16 + 16 * 2 + Z.of_nat (length o2) + 16)
              (Z.of_nat (length pt + 32 + 16))) as [Ha4 | Ha4];
    [ | discriminate ].
  exfalso. lia.
Qed.

End EncryptionInversion.

(** ** What decryption can and cannot report *)

Ltac walk :=
  repeat first
    [ rewrite result_bind
    | rewrite front_eq
    | progress unfold write
    | progress cbv beta iota
    | progress cbn [result snd fst emit ret throw negb orb andb Z.eqb Pos.eqb]
    | match goal with
      | |- context [if ?b then _ else _] => destruct b
      | |- context [match ?x with (_, _) => _ end] => destruct x
      | |- context [match result ?m with _ => _ end] =>
          let t := fresh "t" in destruct m as [t [ ? | ? | | ]]
      end ].

Section Reports.
Context {P : Primitives}.

Lemma getECIESSecret_throws (A B : CKey) what :
  result (getECIESSecret A B) = Throw what ->
  error_kind what = MissingKeyError \/ error_kind what = DerivationError.
Proof.
  unfold getECIESSecret.
  destruct (pkey A) as [a | ], (pkey B) as [b | ];
    try (intros [= <-]; left; reflexivity).
  walk; intros [= <-]; first [left; reflexivity | right; reflexivity].
Qed.

Lemma makeHMAC_throws secret data what :
  result (makeHMAC secret data) <> Throw what.
Proof.
  unfold not, makeHMAC, HMAC_Init_ex, HMAC_Update, HMAC_Final.
  walk; discriminate.
Qed.

Lemma open_envelope_throws secret ct what :
  result (open_envelope secret ct) = Throw what ->
  error_kind what = MalformedCiphertextError
  \/ error_kind what = DecryptionError
  \/ error_kind what = BadPaddingError.
Proof.
  unfold open_envelope, EVP_DecryptInit_ex, EVP_CipherInit_ex.
  walk; try discriminate; intros [= <-];
    first [ left; reflexivity | right; left; reflexivity
          | right; right; reflexivity ].
Qed.

Lemma open_envelope_hmac_length secret ct hmac pt :
  result (open_envelope secret ct) = Ok (hmac, pt) -> length hmac = 32%nat.
Proof.
  unfold open_envelope, EVP_DecryptInit_ex, EVP_CipherInit_ex.
  destruct (_ <? _)%nat; [discriminate | ].
  rstep front_eq. estep. cbv beta iota. cbn [negb Z.eqb Pos.eqb].
  rstep front_eq. estep.
  destruct (EVP_DecryptUpdate _ _ _) as [[[r1 ctx1] o1] outlen1].
  rewrite result_bind.
  destruct (write (repeat 0%N ECIES_HMAC_SIZE) 0 o1) as [tw [h | | | ]] eqn:Ew;
    cbn [result snd]; try discriminate.
  assert (Hh : length h = 32%nat).
  { erewrite write_length; [ | rewrite Ew; reflexivity ]. apply repeat_length. }
  walk; try discriminate. intros [= <- _]. exact Hh.
Qed.

(** No MAC is computed and nothing is compared inside [open_envelope]. *)
Lemma open_envelope_trace secret ct :
  forallb (fun e => negb (is_hmac_call e) && negb (is_compare e))
          (trace (open_envelope secret ct)) = true.
Proof.
  unfold open_envelope, EVP_DecryptInit_ex, EVP_CipherInit_ex.
  repeat first
    [ rewrite trace_bind
    | rewrite front_eq
    | rewrite write_trace
    | rewrite forallb_app
    | progress cbn [trace result snd fst emit ret throw forallb app
                    is_hmac_call is_compare negb andb]
    | match goal with
      | |- context [match result ?m with _ => _ end] =>
          let E := fresh "E" in destruct (result m) eqn:E
      | |- context [match ?x with (_, _) => _ end] => destruct x
      | |- context [if ?b then _ else _] => destruct b
      end ];
    reflexivity.
Qed.

End Reports.

(** ** The toy primitives satisfy what is asked of the real ones *)

Lemma toy_ok : PrimitivesOk toy.
Proof.
  constructor; unfold toy;
    cbn [EC_KEY_check_key ECDH_x SHA256 HMAC_SHA256 AES_encrypt AES_decrypt].
  - intros k. unfold toy_check_key. destruct (pub_key k); discriminate.
  - discriminate.
  - intros k1 k2 d1 d2 Q1 Q2. unfold toy_check_key.
    intros H1 H2 P1 E1 P2 E2. rewrite E1, P1 in H1. rewrite E2, P2 in H2.
    apply Z.eqb_eq in H1, H2. subst Q1 Q2. do 3 f_equal. lia.
  - intros x. apply repeat_length.
  - intros k x. apply repeat_length.
  - intros k b. apply xor_block_length.
  - intros k b Hb. apply xor_block_involutive. exact Hb.
Qed.

(** * The claims *)

Section Claims.
Context {P : Primitives}.

(** C7.  Shared-secret derivation is symmetric: for valid keys [A] and [B]
    of which at least one holds a private scalar, [getECIESSecret A B] and
    [getECIESSecret B A] are the same outcome, a secret of 32 bytes; and
    when both hold one, the scalar of either combined with the public view
    of the other gives that same outcome. *)
Theorem C7_secret_symmetric {HP : PrimitivesOk P} (A B : CKey) :
  valid_key A -> valid_key B -> has_private A || has_private B = true ->
  getECIESSecret A B = getECIESSecret B A
  /\ (exists secret, result (getECIESSecret A B) = Ok secret
                     /\ length secret = ECIES_KEY_LENGTH)
  /\ (has_private A = true -> has_private B = true ->
      getECIESSecret A (public_part B) = getECIESSecret A B
      /\ getECIESSecret B (public_part A) = getECIESSecret A B).
Proof.
  intros VA VB Hpriv.
  destruct (getECIESSecret_valid A B VA VB Hpriv) as (x & EAB & EBA).
  rewrite EAB, EBA. split; [reflexivity | split].
  - exists (SHA256 x). split; [reflexivity | apply SHA256_length].
  - intros HA HB.
    destruct (getECIESSecret_cross A B VA VB HA HB) as (y & E0 & E1 & E2).
    rewrite E1, E2, <- E0, EAB. split; reflexivity.
Qed.

(** C8.  When neither key holds a private scalar, secret derivation throws
    a message of kind [MissingKeyError] before any primitive is called, and
    so do encryption and decryption, whatever the plaintext, the entropy or
    the ciphertext. *)
Theorem C8_missing_key_rejected (A B : CKey) :
  has_private A = false -> has_private B = false ->
  exists what,
    error_kind what = MissingKeyError
    /\ getECIESSecret A B = ([], Throw what)
    /\ (forall pt entropy, encryptECIES A B pt entropy = ([], Throw what))
    /\ (forall ct, decryptECIES A B ct = ([], Throw what)).
Proof.
  intros HA HB.
  destruct (getECIESSecret_no_private A B HA HB) as (what & E & Hwhat).
  exists what. split; [ | split; [exact E | split] ].
  - destruct Hwhat as [-> | ->]; reflexivity.
  - intros pt entropy. unfold encryptECIES. apply bind_throw. exact E.
  - intros ct. unfold decryptECIES. apply bind_throw. exact E.
Qed.

(** C3, as amended.  For a ciphertext shorter than 64 bytes the length
    check is the first thing the envelope stage does: it throws "ciphertext
    too short" with no call logged.  In [decryptECIES] this stage comes
    after the derivation of the secret: when the derivation succeeds the
    call fails with kind [MalformedCiphertextError], and in every case the
    trace is that of the derivation alone, with no call of the cipher or of
    the MAC. *)
Theorem C3_short_ciphertext_rejected (A B : CKey) (ct : bytes) :
  (length ct < 2 * ECIES_ENC_BLK_SIZE + ECIES_HMAC_SIZE)%nat ->
  (forall secret, open_envelope secret ct = ([], Throw "ciphertext too short"))
  /\ (forall secret, result (getECIESSecret A B) = Ok secret ->
        result (decryptECIES A B ct) = Throw "ciphertext too short"
        /\ fails_with (result (decryptECIES A B ct)) MalformedCiphertextError)
  /\ trace (decryptECIES A B ct) = trace (getECIESSecret A B)
  /\ forallb (fun e => negb (is_cipher_call e) && negb (is_hmac_call e))
             (trace (decryptECIES A B ct)) = true.
Proof.
  intros Hlen.
  assert (Hopen : forall secret,
             open_envelope secret ct = ([], Throw "ciphertext too short")).
  { intros secret. unfold open_envelope.
    replace (length ct <? 2 * ECIES_ENC_BLK_SIZE + ECIES_HMAC_SIZE)%nat
      with true by (symmetry; apply Nat.ltb_lt; exact Hlen).
    reflexivity. }
  assert (Htrace : trace (decryptECIES A B ct) = trace (getECIESSecret A B)).
  { unfold decryptECIES. rewrite trace_bind.
    destruct (result (getECIESSecret A B)) as [secret | | | ]; try reflexivity.
    rewrite trace_bind, Hopen. cbn [result snd trace fst].
    apply app_nil_r. }
  split; [exact Hopen | split; [ | split; [exact Htrace | ] ] ].
  - intros secret Hsec.
    assert (E : result (decryptECIES A B ct) = Throw "ciphertext too short").
    { unfold decryptECIES. rewrite result_bind, Hsec.
      rewrite result_bind, Hopen. reflexivity. }
    split; [exact E | ].
    exists "ciphertext too short"%string. split; [exact E | reflexivity].
  - rewrite Htrace.
    destruct (getECIESSecret_trace A B) as [-> | ->]; reflexivity.
Qed.

(** C5.  [decryptECIES] returns a plaintext exactly when the envelope
    opens (padding stripped) to a MAC and a plaintext such that the MAC
    recomputed over that plaintext is the one found; it throws
    "plaintext had bad hmac", an authentication error, exactly when the
    envelope opens and the two MACs differ; and whenever the envelope opens
    and the MAC is recomputed, the run ends with the comparison, after the
    unpadding and the MAC computation, and the comparison examines all 32
    byte positions, whatever the two MACs hold: it takes the same steps
    whether they are equal or differ, and wherever they first differ. *)
Theorem C5_mac_decides (A B : CKey) (ct : bytes) :
  (forall pt,
      result (decryptECIES A B ct) = Ok pt <->
      exists secret hmac,
        result (getECIESSecret A B) = Ok secret
        /\ result (open_envelope secret ct) = Ok (hmac, pt)
        /\ result (makeHMAC secret pt) = Ok hmac)
  /\ (result (decryptECIES A B ct) = Throw "plaintext had bad hmac" <->
      exists secret hmac pt mac,
        result (getECIESSecret A B) = Ok secret
        /\ result (open_envelope secret ct) = Ok (hmac, pt)
        /\ result (makeHMAC secret pt) = Ok mac
        /\ hmac <> mac)
  /\ error_kind "plaintext had bad hmac" = AuthenticationError
  /\ (forall secret hmac pt mac,
        result (getECIESSecret A B) = Ok secret ->
        result (open_envelope secret ct) = Ok (hmac, pt) ->
        result (makeHMAC secret pt) = Ok mac ->
        trace (decryptECIES A B ct) =
        trace (getECIESSecret A B) ++ trace (open_envelope secret ct)
          ++ hmac_trace (length pt) ++ [EvCompare]
          ++ map EvByte (seq 0 ECIES_HMAC_SIZE)).
Proof.
  assert (Hrun : forall secret hmac pt mac,
             result (getECIESSecret A B) = Ok secret ->
             result (open_envelope secret ct) = Ok (hmac, pt) ->
             result (makeHMAC secret pt) = Ok mac ->
             result (decryptECIES A B ct) =
             if uint256_ne hmac mac then Throw "plaintext had bad hmac"
             else Ok pt).
  { intros secret hmac pt mac Hs Ho Hm. unfold decryptECIES.
    rewrite result_bind, Hs. rewrite result_bind, Ho.
    rewrite result_bind, Hm. rewrite result_bind. cbn [result snd emit].
    rewrite result_bind, uint256_ne_run_result.
    destruct (uint256_ne hmac mac); reflexivity. }
  assert (Hne : forall secret hmac pt mac,
             result (open_envelope secret ct) = Ok (hmac, pt) ->
             result (makeHMAC secret pt) = Ok mac ->
             (uint256_ne hmac mac = true <-> hmac <> mac)).
  { intros secret hmac pt mac Ho Hm. apply uint256_ne_true.
    rewrite (open_envelope_hmac_length _ _ _ _ Ho).
    rewrite (makeHMAC_length _ _ _ Hm). reflexivity. }
  assert (Hinv : forall r,
             result (decryptECIES A B ct) = r ->
             (exists pt, r = Ok pt) \/ r = Throw "plaintext had bad hmac" ->
             exists secret hmac pt mac,
               result (getECIESSecret A B) = Ok secret
               /\ result (open_envelope secret ct) = Ok (hmac, pt)
               /\ result (makeHMAC secret pt) = Ok mac).
  { intros r Hr Hcase. unfold decryptECIES in Hr. rewrite result_bind in Hr.
    destruct (result (getECIESSecret A B)) as [secret | w | | ] eqn:Hs.
    - rewrite result_bind in Hr.
      destruct (result (open_envelope secret ct)) as [[hmac pt] | w | | ] eqn:Ho.
      + rewrite result_bind in Hr.
        destruct (result (makeHMAC secret pt)) as [mac | w | | ] eqn:Hm.
        * exists secret, hmac, pt, mac. repeat split; assumption.
        * exfalso. exact (makeHMAC_throws _ _ _ Hm).
        * subst r. destruct Hcase as [[? ?] | ?]; discriminate.
        * subst r. destruct Hcase as [[? ?] | ?]; discriminate.
      + subst r. destruct Hcase as [[? ?] | Hc]; [discriminate | ].
        injection Hc as ->.
        destruct (open_envelope_throws _ _ _ Ho) as [? | [? | ?]]; discriminate.
      + subst r. destruct Hcase as [[? ?] | ?]; discriminate.
      + subst r. destruct Hcase as [[? ?] | ?]; discriminate.
    - subst r. destruct Hcase as [[? ?] | Hc]; [discriminate | ].
      injection Hc as ->.
      destruct (getECIESSecret_throws _ _ _ Hs) as [? | ?]; discriminate.
    - subst r. destruct Hcase as [[? ?] | ?]; discriminate.
    - subst r. destruct Hcase as [[? ?] | ?]; discriminate. }
  split; [ | split; [ | split ] ].
  - intros pt. split.
    + intros Hok.
      destruct (Hinv _ Hok (or_introl (ex_intro _ pt eq_refl)))
        as (secret & hmac & pt' & mac & Hs & Ho & Hm).
      rewrite (Hrun _ _ _ _ Hs Ho Hm) in Hok.
      destruct (uint256_ne hmac mac) eqn:E; [discriminate | ].
      injection Hok as ->.
      assert (hmac = mac).
      { destruct (list_eq_dec N.eq_dec hmac mac) as [-> | Hd]; [reflexivity | ].
        apply (Hne _ _ _ _ Ho Hm) in Hd. congruence. }
      subst mac. exists secret, hmac. repeat split; assumption.
    + intros (secret & hmac & Hs & Ho & Hm).
      rewrite (Hrun _ _ _ _ Hs Ho Hm), uint256_ne_same. reflexivity.
  - split.
    + intros Hbad.
      destruct (Hinv _ Hbad (or_intror eq_refl))
        as (secret & hmac & pt & mac & Hs & Ho & Hm).
      rewrite (Hrun _ _ _ _ Hs Ho Hm) in Hbad.
      destruct (uint256_ne hmac mac) eqn:E; [ | discriminate ].
      exists secret, hmac, pt, mac. repeat split; try assumption.
      apply (Hne _ _ _ _ Ho Hm). exact E.
    + intros (secret & hmac & pt & mac & Hs & Ho & Hm & Hd).
      rewrite (Hrun _ _ _ _ Hs Ho Hm).
      apply (Hne _ _ _ _ Ho Hm) in Hd. rewrite Hd. reflexivity.
  - reflexivity.
  - intros secret hmac pt mac Hs Ho Hm. unfold decryptECIES.
    rewrite trace_bind, Hs. rewrite trace_bind, Ho.
    rewrite trace_bind, Hm.
    rewrite (proj1 (makeHMAC_ok secret pt mac Hm)).
    rewrite trace_bind. cbn [result snd trace fst emit].
    rewrite trace_bind.
    rewrite (uint256_ne_run_eq hmac mac
               (open_envelope_hmac_length _ _ _ _ Ho)
               (makeHMAC_length _ _ _ Hm)).
    cbn [result snd trace fst].
    destruct (uint256_ne hmac mac); cbn [fst throw ret];
      rewrite app_nil_r; reflexivity.
Qed.

End Claims.

(** ** Consequences shared by the claims on the envelope *)

Lemma encrypt_trace_in_bounds n :
  forallb front_in_bounds (encrypt_trace n) = (0 <? n)%nat.
Proof. destruct n; reflexivity. Qed.

Lemma hmac_trace_in_bounds n :
  forallb front_in_bounds (hmac_trace n) = (0 <? n)%nat.
Proof. destruct n; reflexivity. Qed.

Lemma zero_ltb_length (x : bytes) : (0 <? length x)%nat = true <-> x <> [].
Proof.
  destruct x as [ | b x]; cbn.
  - split; [discriminate | intros H; exfalso; apply H; reflexivity].
  - split; [discriminate | reflexivity].
Qed.

Section EnvelopeFacts.
Context {P : Primitives} {HP : PrimitivesOk P}.

(** A successful encryption is the envelope of its plaintext under the
    secret derived and the IV drawn, with the full trace. *)
Lemma encryptECIES_ok (A B : CKey) pt entropy ct :
  result (encryptECIES A B pt entropy) = Ok ct ->
  exists t secret iv,
    getECIESSecret A B = (t, Ok secret) /\ entropy = Some iv
    /\ length iv = 16%nat
    /\ encryptECIES A B pt entropy
       = (t ++ encrypt_trace (length pt), Ok (envelope secret iv pt)).
Proof.
  intros Hok.
  destruct (encryptECIES_ok_inv A B pt entropy ct Hok)
    as (t & secret & iv & Hsec & -> & Hiv & Hin).
  exists t, secret, iv. repeat split; try assumption.
  apply encryptECIES_eq; assumption.
Qed.

Lemma encryptECIES_ok_length (A B : CKey) pt entropy ct :
  result (encryptECIES A B pt entropy) = Ok ct ->
  length ct = (16 + 16 * ((32 + length pt) / 16 + 1))%nat.
Proof.
  intros Hok.
  destruct (encryptECIES_ok A B pt entropy ct Hok)
    as (t & secret & iv & Hsec & -> & Hiv & E).
  rewrite E in Hok. injection Hok as <-.
  apply envelope_length. exact Hiv.
Qed.

Lemma encryptECIES_valid (A B : CKey) pt iv :
  valid_key A -> valid_key B -> has_private A || has_private B = true ->
  length iv = 16%nat -> Z.of_nat (length pt) <= max_plaintext_size ->
  exists secret,
    getECIESSecret B A = ([EvCall "ECDH_compute_key"], Ok secret)
    /\ encryptECIES A B pt (Some iv)
       = ([EvCall "ECDH_compute_key"] ++ encrypt_trace (length pt),
          Ok (envelope secret iv pt)).
Proof.
  intros VA VB Hpriv Hiv Hpt.
  destruct (getECIESSecret_valid A B VA VB Hpriv) as (x & EAB & EBA).
  exists (SHA256 x). split; [exact EBA | ].
  apply encryptECIES_eq; [exact EAB | exact Hiv | ].
  unfold max_plaintext_size in Hpt. lia.
Qed.

End EnvelopeFacts.

Section EnvelopeClaims.
Context {P : Primitives}.

(** C1.  Round trip: for valid keys [A] and [B] of which at least one holds
    a private scalar, every plaintext of at most [max_plaintext_size] bytes
    and every IV the entropy source delivers, [A.encryptECIES(B, P)]
    returns a ciphertext, and [B.decryptECIES(A, .)] returns [P] on it. *)
Theorem C1_round_trip {HP : PrimitivesOk P} (A B : CKey) (pt iv : bytes) :
  valid_key A -> valid_key B -> has_private A || has_private B = true ->
  length iv = ECIES_ENC_BLK_SIZE ->
  Z.of_nat (length pt) <= max_plaintext_size ->
  exists ct,
    result (encryptECIES A B pt (Some iv)) = Ok ct
    /\ result (decryptECIES B A ct) = Ok pt.
Proof.
  intros VA VB Hpriv Hiv Hpt.
  destruct (encryptECIES_valid A B pt iv VA VB Hpriv Hiv Hpt)
    as (secret & Hsec & Henc).
  exists (envelope secret iv pt). split.
  - rewrite Henc. reflexivity.
  - apply (decryptECIES_envelope A B _ secret iv pt Hsec Hiv).
    unfold max_plaintext_size in Hpt. lia.
Qed.

(** C2, as amended.  The ciphertext of the empty plaintext is exactly 64
    bytes long (the IV, two blocks of MAC, one block of padding), no
    ciphertext is shorter, and the empty plaintext is encrypted without
    failure under valid keys. *)
Theorem C2_minimum_envelope {HP : PrimitivesOk P} :
  (forall A B entropy ct,
      result (encryptECIES A B [] entropy) = Ok ct -> length ct = 64%nat)
  /\ (forall A B pt entropy ct,
        result (encryptECIES A B pt entropy) = Ok ct -> (64 <= length ct)%nat)
  /\ (forall A B iv,
        valid_key A -> valid_key B -> has_private A || has_private B = true ->
        length iv = ECIES_ENC_BLK_SIZE ->
        exists ct, result (encryptECIES A B [] (Some iv)) = Ok ct).
Proof.
  split; [ | split ].
  - intros A B entropy ct Hok.
    rewrite (encryptECIES_ok_length A B [] entropy ct Hok). reflexivity.
  - intros A B pt entropy ct Hok.
    rewrite (encryptECIES_ok_length A B pt entropy ct Hok).
    assert (2 <= (32 + length pt) / 16)%nat
      by (apply Nat.div_le_lower_bound; lia).
    lia.
  - intros A B iv VA VB Hpriv Hiv.
    assert (Hpt : Z.of_nat (length (@nil N)) <= max_plaintext_size)
      by (unfold max_plaintext_size, INT_MAX; cbn [length]; lia).
    destruct (encryptECIES_valid A B [] iv VA VB Hpriv Hiv Hpt)
      as (secret & _ & Henc).
    exists (envelope secret iv []). rewrite Henc. reflexivity.
Qed.

(** C9.  Whenever encryption returns a ciphertext, its length is the block
    size plus 16 times (the quotient of MAC size plus plaintext length by
    16, plus one): a whole block of padding is added when MAC and plaintext
    already fill whole blocks. *)
Theorem C9_ciphertext_length {HP : PrimitivesOk P} (A B : CKey)
    (pt : bytes) (entropy : option bytes) (ct : bytes) :
  result (encryptECIES A B pt entropy) = Ok ct ->
  length ct
  = (ECIES_ENC_BLK_SIZE + 16 * ((ECIES_HMAC_SIZE + length pt) / 16 + 1))%nat.
Proof.
  intros Hok.
  destruct (encryptECIES_ok A B pt entropy ct Hok)
    as (t & secret & iv & Hsec & -> & Hiv & E).
  rewrite E in Hok. injection Hok as <-.
  apply envelope_length. exact Hiv.
Qed.

(** C6.  When the derivation of the secret succeeds and the envelope
    stage reports a bad padding, [decryptECIES] throws "plaintext had bad
    padding" and its trace, that of the derivation followed by that of the
    envelope stage, holds no call of the MAC and no comparison.  For a
    ciphertext of at least 64 bytes whose length an [int] holds, the
    envelope stage runs up to [EVP_DecryptFinal] and reports a bad padding
    exactly when the CBC decryption of the ciphertext does not end in a
    valid padding ([unseal]).  In general the comparison of the MACs is
    reached only when the envelope opened, that is after the padding was
    accepted. *)
Theorem C6_padding_before_mac (A B : CKey) (ct : bytes) :
  (forall secret,
      result (getECIESSecret A B) = Ok secret ->
      result (open_envelope secret ct) = Throw "plaintext had bad padding" ->
      result (decryptECIES A B ct) = Throw "plaintext had bad padding"
      /\ fails_with (result (decryptECIES A B ct)) BadPaddingError
      /\ trace (decryptECIES A B ct)
         = trace (getECIESSecret A B) ++ trace (open_envelope secret ct)
      /\ forallb (fun e => negb (is_hmac_call e) && negb (is_compare e))
                 (trace (decryptECIES A B ct)) = true)
  /\ (forall secret,
        (2 * ECIES_ENC_BLK_SIZE + ECIES_HMAC_SIZE <= length ct)%nat ->
        Z.of_nat (length ct) <= INT_MAX ->
        open_envelope secret ct = (open_trace (length ct), unseal secret ct)
        /\ (result (open_envelope secret ct) = Throw "plaintext had bad padding"
            <-> forall hmac pt, unseal secret ct <> Ok (hmac, pt)))
  /\ (In EvCompare (trace (decryptECIES A B ct)) ->
      exists secret hmac pt,
        result (getECIESSecret A B) = Ok secret
        /\ result (open_envelope secret ct) = Ok (hmac, pt)).
Proof.
  split; [ | split ].
  - intros secret Hsec Hbad.
    assert (E : result (decryptECIES A B ct) = Throw "plaintext had bad padding").
    { unfold decryptECIES. rewrite result_bind, Hsec.
      rewrite result_bind, Hbad. reflexivity. }
    assert (T : trace (decryptECIES A B ct)
                = trace (getECIESSecret A B) ++ trace (open_envelope secret ct)).
    { unfold decryptECIES. rewrite trace_bind, Hsec.
      rewrite trace_bind, Hbad. reflexivity. }
    split; [exact E | split; [ | split; [exact T | ] ] ].
    + exists "plaintext had bad padding"%string. split; [exact E | reflexivity].
    + rewrite T, forallb_app, open_envelope_trace.
      rewrite (getECIESSecret_ok_trace A B secret Hsec). reflexivity.
  - intros secret Hlen Hmax.
    unfold ECIES_ENC_BLK_SIZE, ECIES_HMAC_SIZE in Hlen.
    pose proof (open_envelope_eq secret ct ltac:(lia) Hmax) as Hopen.
    split; [exact Hopen | ].
    rewrite Hopen. cbn [result snd]. unfold unseal. cbv zeta.
    destruct (_ =? 0)%nat; [ | split; [discriminate | reflexivity] ].
    destruct (pkcs_unpad _) as [pt | ].
    + split; [discriminate | ]. intros H. exfalso. exact (H _ _ eq_refl).
    + split; [discriminate | reflexivity].
  - unfold decryptECIES. rewrite trace_bind.
    destruct (result (getECIESSecret A B)) as [secret | w | | ] eqn:Hsec;
      try (destruct (getECIESSecret_trace A B) as [-> | ->];
           cbn; intros H; exfalso; intuition discriminate).
    rewrite trace_bind.
    destruct (result (open_envelope secret ct)) as [[hmac pt] | w | | ] eqn:Hopen;
      try (intros H; exfalso; apply in_app_or in H; destruct H as [H | H];
           [ rewrite (getECIESSecret_ok_trace A B secret Hsec) in H;
             cbn in H; intuition discriminate
           | pose proof (open_envelope_trace secret ct) as Hno;
             rewrite forallb_forall in Hno; specialize (Hno _ H);
             discriminate Hno ]).
    intros _. exists secret, hmac, pt. split; [reflexivity | exact Hopen].
Qed.

(** C10.  [makeHMAC] takes [data.front()] and [encryptECIES] takes
    [plaintext.front()] whatever the length of the buffer: the accesses
    logged all meet a non-empty vector exactly when the buffer is not
    empty.  The empty plaintext is nevertheless accepted: under valid keys
    it is encrypted, with [front()] taken on two vectors of size 0. *)
Theorem C10_front_of_empty {HP : PrimitivesOk P} :
  (forall secret data,
      In (EvFront "data" (length data)) (trace (makeHMAC secret data))
      /\ (forallb front_in_bounds (trace (makeHMAC secret data)) = true
          <-> data <> []))
  /\ (forall A B pt entropy ct,
        result (encryptECIES A B pt entropy) = Ok ct ->
        In (EvFront "plaintext" (length pt)) (trace (encryptECIES A B pt entropy))
        /\ (forallb front_in_bounds (trace (encryptECIES A B pt entropy)) = true
            <-> pt <> []))
  /\ (forall A B iv,
        valid_key A -> valid_key B -> has_private A || has_private B = true ->
        length iv = ECIES_ENC_BLK_SIZE ->
        exists ct,
          result (encryptECIES A B [] (Some iv)) = Ok ct
          /\ In (EvFront "data" 0) (trace (encryptECIES A B [] (Some iv)))
          /\ In (EvFront "plaintext" 0) (trace (encryptECIES A B [] (Some iv)))).
Proof.
  split; [ | split ].
  - intros secret data. rewrite makeHMAC_eq. cbn [trace fst]. split.
    + unfold hmac_trace. cbn. tauto.
    + rewrite hmac_trace_in_bounds. apply zero_ltb_length.
  - intros A B pt entropy ct Hok.
    destruct (encryptECIES_ok A B pt entropy ct Hok)
      as (t & secret & iv & Hsec & -> & Hiv & E).
    rewrite E. cbn [trace fst].
    assert (Ht : t = [EvCall "ECDH_compute_key"]).
    { rewrite <- (getECIESSecret_ok_trace A B secret); rewrite Hsec; reflexivity. }
    subst t. split.
    + apply in_or_app. right. unfold encrypt_trace, hmac_trace. cbn. tauto.
    + rewrite forallb_app, encrypt_trace_in_bounds. cbn [forallb front_in_bounds andb].
      apply zero_ltb_length.
  - intros A B iv VA VB Hpriv Hiv.
    assert (Hpt : Z.of_nat (length (@nil N)) <= max_plaintext_size)
      by (unfold max_plaintext_size, INT_MAX; cbn [length]; lia).
    destruct (encryptECIES_valid A B [] iv VA VB Hpriv Hiv Hpt)
      as (secret & _ & Henc).
    exists (envelope secret iv []). rewrite Henc. cbn [result snd trace fst].
    split; [reflexivity | split]; cbn; tauto.
Qed.

End EnvelopeClaims.

(** * Beyond the claims *)

Lemma xor_block_rechain d iv iv' :
  xor_block (xor_block (xor_block d iv) iv) iv' = xor_block d iv'.
Proof.
  apply (nth_ext _ _ 0%N 0%N).
  - rewrite !xor_block_length. reflexivity.
  - intros i Hi. rewrite xor_block_length in Hi.
    rewrite !nth_xor_block by exact Hi.
    rewrite (N.lxor_assoc (nth i d 0%N)), N.lxor_nilpotent, N.lxor_0_r.
    reflexivity.
Qed.

Lemma lxor_fixed a b c : N.lxor (N.lxor a b) c = a -> b = c.
Proof.
  intros H. apply N.lxor_eq_0_iff.
  assert (E : N.lxor a (N.lxor (N.lxor a b) c) = N.lxor b c).
  { rewrite (N.lxor_assoc a b c), <- (N.lxor_assoc a a).
    rewrite N.lxor_nilpotent, N.lxor_0_l. reflexivity. }
  rewrite <- E, H. apply N.lxor_nilpotent.
Qed.

Lemma xor_block_fixed a b c :
  length b = 16%nat -> length c = 16%nat ->
  xor_block (xor_block a b) c = xor_block a (repeat 0%N 16) -> b = c.
Proof.
  intros Hb Hc H. apply (nth_ext _ _ 0%N 0%N); [congruence | ].
  intros i Hi. rewrite Hb in Hi.
  assert (Hn : nth i (xor_block (xor_block a b) c) 0%N
               = nth i (xor_block a (repeat 0%N 16)) 0%N) by (rewrite H; reflexivity).
  rewrite !nth_xor_block in Hn by exact Hi.
  rewrite nth_repeat_lt, N.lxor_0_r in Hn by exact Hi.
  exact (lxor_fixed _ _ _ Hn).
Qed.

Lemma xor_block_zero a : length a = 16%nat -> xor_block a (repeat 0%N 16) = a.
Proof.
  intros Ha. apply (nth_ext _ _ 0%N 0%N).
  - rewrite xor_block_length. symmetry. exact Ha.
  - intros i Hi. rewrite xor_block_length in Hi.
    rewrite nth_xor_block, nth_repeat_lt, N.lxor_0_r by exact Hi. reflexivity.
Qed.

Section Beyond.
Context {P : Primitives}.

(** Decrypting under another IV changes the first block only. *)
Lemma AES_cbc_decrypt_other_iv key iv iv' n c :
  fst (AES_cbc_encrypt false key iv' (S n) c) =
  xor_block (xor_block (firstn 16 (fst (AES_cbc_encrypt false key iv (S n) c))) iv) iv'
    ++ skipn 16 (fst (AES_cbc_encrypt false key iv (S n) c)).
Proof.
  cbn [AES_cbc_encrypt].
  destruct (AES_cbc_encrypt false key (firstn 16 c) n (skipn 16 c)) as [os iv''].
  cbn [fst].
  rewrite firstn_app_exact, skipn_app_exact by apply xor_block_length.
  rewrite xor_block_rechain. reflexivity.
Qed.

Context {HP : PrimitivesOk P}.

(** X1.  The body of the self-test [checkECIES]: a message encrypted with
    the sender's private key for the recipient's public key is returned by
    decryption with the recipient's private key and the sender's public
    key. *)
Theorem X1_self_test_round_trip (S R : CKey) (pt iv : bytes) :
  valid_key S -> valid_key R -> has_private S = true -> has_private R = true ->
  length iv = ECIES_ENC_BLK_SIZE ->
  Z.of_nat (length pt) <= max_plaintext_size ->
  exists ct,
    result (encryptECIES S (public_part R) pt (Some iv)) = Ok ct
    /\ result (decryptECIES R (public_part S) ct) = Ok pt.
Proof.
  intros VS VR HS HR Hiv Hpt.
  destruct (getECIESSecret_cross S R VS VR HS HR) as (x & _ & Eenc & Edec).
  assert (Hin : Z.of_nat (length pt) + 64 <= INT_MAX)
    by (unfold max_plaintext_size in Hpt; lia).
  exists (envelope (SHA256 x) iv pt). split.
  - rewrite (encryptECIES_eq S (public_part R) pt iv _ _ Eenc Hiv Hin).
    reflexivity.
  - exact (decryptECIES_envelope (public_part S) R _ _ iv pt Edec Hiv Hin).
Qed.

(** What the envelope opens to when its IV has been replaced: the first
    block of the MAC carries the difference of the two IVs, the plaintext
    is intact. *)
Lemma unseal_other_iv secret iv iv' pt :
  length iv = 16%nat -> length iv' = 16%nat ->
  let mac := HMAC_SHA256 (firstn ECIES_KEY_LENGTH secret) pt in
  unseal secret (iv' ++ skipn 16 (envelope secret iv pt))
  = Ok (xor_block (xor_block (firstn 16 mac) iv) iv' ++ skipn 16 mac, pt).
Proof.
  intros Hiv Hiv'. cbv zeta.
  pose proof (envelope_length secret iv pt Hiv) as Hlen.
  unfold unseal. cbv zeta.
  rewrite length_app, length_skipn, Hlen, Hiv'.
  replace (16 + (16 + 16 * ((32 + length pt) / 16 + 1) - 16))%nat
    with (0 + ((32 + length pt) / 16 + 2) * 16)%nat by lia.
  rewrite Nat.Div0.mod_add. change (0 mod 16 =? 0)%nat with true. cbv iota.
  rewrite firstn_app_exact, skipn_app_exact by exact Hiv'.
  unfold envelope. cbv zeta.
  rewrite skipn_app_exact by exact Hiv.
  set (key := firstn ECIES_ENC_KEY_SIZE secret).
  set (mac := HMAC_SHA256 (firstn ECIES_KEY_LENGTH secret) pt).
  assert (Hmac : length mac = 32%nat) by apply HMAC_SHA256_length.
  set (x := mac ++ pt ++ pkcs_padding (length pt)).
  destruct (div_mod_16 (length pt)) as [Hn Hr].
  assert (Hx : length x = (16 * (length pt / 16 + 3))%nat).
  { unfold x. rewrite !length_app, Hmac, pkcs_padding_length. lia. }
  assert (Hxq : (length x / 16 = length pt / 16 + 3)%nat).
  { rewrite Hx, Nat.mul_comm, Nat.div_mul by lia. reflexivity. }
  unfold cbc_decrypt, cbc_encrypt.
  rewrite AES_cbc_encrypt_length, Hxq.
  replace (16 * (length pt / 16 + 3) / 16)%nat with (S (length pt / 16 + 2))
    by (rewrite Nat.mul_comm, Nat.div_mul; lia).
  rewrite (AES_cbc_decrypt_other_iv key iv iv').
  replace (S (length pt / 16 + 2)) with (length pt / 16 + 3)%nat by lia.
  rewrite AES_cbc_decrypt_encrypt by lia.
  rewrite (firstn_all2 (n := 16 * (length pt / 16 + 3)) x) by lia.
  unfold x.
  rewrite (firstn_app_le mac _ 16), (skipn_app_le mac _ 16) by lia.
  rewrite app_assoc.
  set (mac' := xor_block (xor_block (firstn 16 mac) iv) iv' ++ skipn 16 mac).
  assert (Hmac' : length mac' = 32%nat).
  { unfold mac'. rewrite length_app, xor_block_length, length_skipn. lia. }
  rewrite firstn_app_exact, skipn_app_exact by exact Hmac'.
  rewrite pkcs_unpad_padding. reflexivity.
Qed.

(** X2.  A ciphertext whose IV has been replaced by any other 16 bytes, a
    single flipped bit included, is rejected with "plaintext had bad
    hmac". *)
Theorem X2_iv_tamper_detected (A B : CKey) (pt iv iv' : bytes) :
  valid_key A -> valid_key B -> has_private A || has_private B = true ->
  length iv = ECIES_ENC_BLK_SIZE -> length iv' = ECIES_ENC_BLK_SIZE ->
  iv' <> iv ->
  Z.of_nat (length pt) <= max_plaintext_size ->
  exists ct,
    result (encryptECIES A B pt (Some iv)) = Ok ct
    /\ result (decryptECIES B A (iv' ++ skipn ECIES_ENC_BLK_SIZE ct))
       = Throw "plaintext had bad hmac".
Proof.
  intros VA VB Hpriv Hiv Hiv' Hne Hpt.
  unfold ECIES_ENC_BLK_SIZE in *.
  destruct (encryptECIES_valid A B pt iv VA VB Hpriv Hiv Hpt)
    as (secret & Hsec & Henc).
  exists (envelope secret iv pt). split; [rewrite Henc; reflexivity | ].
  pose proof (envelope_length secret iv pt Hiv) as Hlen.
  unfold max_plaintext_size, INT_MAX in Hpt.
  destruct (div_mod_16 (32 + length pt)) as [Hn Hr].
  unfold decryptECIES.
  rewrite result_bind, Hsec. cbn [result snd].
  rewrite result_bind, open_envelope_eq
    by (rewrite length_app, length_skipn, Hlen, Hiv'; unfold INT_MAX; lia).
  cbn [result snd].
  rewrite (unseal_other_iv secret iv iv' pt Hiv Hiv'). cbv zeta.
  rewrite result_bind, makeHMAC_eq. cbn [result snd].
  rewrite result_bind. cbn [result snd emit].
  rewrite result_bind, uint256_ne_run_result. cbn [result snd].
  set (mac := HMAC_SHA256 (firstn ECIES_KEY_LENGTH secret) pt).
  assert (Hmac : length mac = 32%nat) by apply HMAC_SHA256_length.
  replace (uint256_ne _ mac) with true; [reflexivity | ].
  symmetry. apply uint256_ne_true.
  - rewrite length_app, xor_block_length, length_skipn. lia.
  - intros Heq. apply Hne. symmetry.
    apply (xor_block_fixed (firstn 16 mac) iv iv' Hiv Hiv').
    rewrite xor_block_zero by (rewrite length_firstn; lia).
    rewrite <- (firstn_skipn 16 mac) in Heq at 3.
    apply app_inv_tail in Heq. exact Heq.
Qed.

(** X3.  What [decryptECIES] can answer to a ciphertext of at least 64
    bytes once the secret is derived: bad padding, bad hmac, or a plaintext
    whose MAC under the secret is the one the envelope carries. *)
Theorem X3_decrypt_outcomes (A B : CKey) (ct secret : bytes) :
  result (getECIESSecret A B) = Ok secret ->
  (2 * ECIES_ENC_BLK_SIZE + ECIES_HMAC_SIZE <= length ct)%nat ->
  Z.of_nat (length ct) <= INT_MAX ->
  result (decryptECIES A B ct) = Throw "plaintext had bad padding"
  \/ result (decryptECIES A B ct) = Throw "plaintext had bad hmac"
  \/ exists pt,
       result (decryptECIES A B ct) = Ok pt
       /\ unseal secret ct
          = Ok (HMAC_SHA256 (firstn ECIES_KEY_LENGTH secret) pt, pt).
Proof.
  intros Hsec Hlen Hmax.
  unfold ECIES_ENC_BLK_SIZE, ECIES_HMAC_SIZE in Hlen.
  pose proof (open_envelope_eq secret ct ltac:(lia) Hmax) as Hopen.
  unfold decryptECIES.
  rewrite result_bind, Hsec. rewrite result_bind, Hopen. cbn [result snd].
  assert (Hcases : (exists hmac pt, unseal secret ct = Ok (hmac, pt))
                   \/ unseal secret ct = Throw "plaintext had bad padding").
  { unfold unseal. cbv zeta. destruct (_ =? 0)%nat; [ | right; reflexivity ].
    destruct (pkcs_unpad _) as [pt | ]; [left; eauto | right; reflexivity]. }
  destruct Hcases as [(hmac & pt & Hu) | Hu]; rewrite Hu;
    [ | left; reflexivity ].
  right.
  rewrite result_bind, makeHMAC_eq. cbn [result snd].
  rewrite result_bind. cbn [result snd emit].
  rewrite result_bind, uint256_ne_run_result. cbn [result snd].
  destruct (uint256_ne hmac _) eqn:E; [left; reflexivity | right].
  exists pt. split; [reflexivity | ].
  assert (Hh : length hmac = 32%nat).
  { apply (open_envelope_hmac_length secret ct hmac pt).
    rewrite Hopen, Hu. reflexivity. }
  destruct (list_eq_dec N.eq_dec hmac
              (HMAC_SHA256 (firstn ECIES_KEY_LENGTH secret) pt)) as [-> | Hd];
    [reflexivity | ].
  apply uint256_ne_true in Hd; [congruence | ].
  rewrite Hh, HMAC_SHA256_length. reflexivity.
Qed.

End Beyond.

(** ** Padding read backwards *)

Lemma forallb_eqb_repeat (a : N) (l : bytes) :
  forallb (N.eqb a) l = true -> l = repeat a (length l).
Proof.
  induction l as [ | b l IH]; [reflexivity | ].
  cbn [forallb length]. intros H. apply andb_prop in H. destruct H as [Hb Hl].
  apply N.eqb_eq in Hb. subst b.
  change (repeat a (S (length l))) with (a :: repeat a (length l)).
  f_equal. exact (IH Hl).
Qed.

Lemma padding_of_inv blk n :
  padding_of blk = Some n ->
  skipn (16 - n) blk = repeat (N.of_nat n) (length (skipn (16 - n) blk)).
Proof.
  unfold padding_of.
  destruct ((1 <=? _)%nat && (_ <=? 16)%nat) eqn:E1; cbn [andb]; [ | discriminate ].
  destruct (forallb _ _) eqn:E; [ | discriminate ].
  intros [= <-]. apply forallb_eqb_repeat. exact E.
Qed.

(** What unpadding accepts is a padded stream. *)
Lemma pkcs_unpad_inv (x pt : bytes) :
  (16 <= length x)%nat -> (length x mod 16 = 0)%nat ->
  pkcs_unpad x = Some pt -> x = pt ++ pkcs_padding (length pt).
Proof.
  intros Hx Hmod. unfold pkcs_unpad.
  destruct (padding_of (skipn (length x - 16) x)) as [n | ] eqn:E; [ | discriminate ].
  intros [= <-].
  pose proof (padding_of_bounds _ _ E) as Hn.
  pose proof (padding_of_inv _ _ E) as Hp.
  rewrite skipn_skipn in Hp.
  replace (16 - n + (length x - 16))%nat with (length x - n)%nat in Hp by lia.
  rewrite length_skipn in Hp.
  replace (length x - (length x - n))%nat with n in Hp by lia.
  assert (Hlen : length (firstn (length x - n) x) = (length x - n)%nat)
    by (rewrite length_firstn; lia).
  destruct (div_mod_16 (length x)) as [Hq Hr]. rewrite Hmod in Hq.
  destruct (div_mod_16 (length x - n)) as [Hq' Hr'].
  unfold pkcs_padding. rewrite Hlen.
  replace (16 - (length x - n) mod 16)%nat with n by lia.
  rewrite <- Hp. symmetry. apply firstn_skipn.
Qed.

(** ** What acceptance implies *)

Section Reading.
Context {P : Primitives}.

Lemma cbc_decrypt_length key iv x :
  length (cbc_decrypt key iv x) = (16 * (length x / 16))%nat.
Proof. unfold cbc_decrypt. apply AES_cbc_decrypt_length. Qed.

(** What an opened envelope says about the ciphertext. *)
Lemma unseal_ok_inv secret ct mac pt :
  (64 <= length ct)%nat ->
  unseal secret ct = Ok (mac, pt) ->
  (length ct mod 16 = 0)%nat
  /\ length mac = 32%nat
  /\ cbc_decrypt (firstn ECIES_ENC_KEY_SIZE secret) (firstn 16 ct) (skipn 16 ct)
     = mac ++ pt ++ pkcs_padding (length pt).
Proof.
  intros HL. unfold unseal. cbv zeta.
  destruct (Nat.eqb_spec (length ct mod 16) 0) as [Hmod | ]; [ | discriminate ].
  set (plain := cbc_decrypt _ _ _).
  destruct (pkcs_unpad (skipn 32 plain)) as [pt' | ] eqn:E; [ | discriminate ].
  intros [= <- <-].
  destruct (div_mod_16 (length ct)) as [Hq Hr]. rewrite Hmod in Hq.
  assert (Hplain : length plain = (length ct - 16)%nat).
  { unfold plain. rewrite cbc_decrypt_length, length_skipn.
    replace (length ct - 16)%nat with ((length ct / 16 - 1) * 16)%nat by lia.
    rewrite Nat.div_mul by lia. lia. }
  split; [exact Hmod | split ].
  - rewrite length_firstn. lia.
  - apply pkcs_unpad_inv in E.
    + rewrite <- E. symmetry. apply firstn_skipn.
    + rewrite length_skipn. lia.
    + rewrite length_skipn, Hplain.
      replace (length ct - 16 - 32)%nat with ((length ct / 16 - 3) * 16)%nat by lia.
      apply Nat.Div0.mod_mul.
Qed.

Context {HP : PrimitivesOk P}.

(** What a successful decryption has gone through. *)
Lemma decryptECIES_ok_inv (A B : CKey) ct pt :
  result (decryptECIES A B ct) = Ok pt ->
  Z.of_nat (length ct) <= INT_MAX ->
  exists t secret,
    getECIESSecret A B = (t, Ok secret)
    /\ (64 <= length ct)%nat
    /\ unseal secret ct
       = Ok (HMAC_SHA256 (firstn ECIES_KEY_LENGTH secret) pt, pt).
Proof.
  intros Hok Hmax. unfold decryptECIES in Hok.
  rewrite result_bind in Hok.
  destruct (getECIESSecret A B) as [t [secret | | | ]] eqn:Hs;
    cbn [result snd] in Hok; try discriminate.
  exists t, secret. split; [reflexivity | ].
  rewrite result_bind in Hok.
  destruct (Nat.ltb_spec (length ct) 64) as [Hshort | HL].
  { exfalso. unfold open_envelope in Hok.
    change (2 * ECIES_ENC_BLK_SIZE + ECIES_HMAC_SIZE)%nat with 64%nat in Hok.
    replace (length ct <? 64)%nat with true in Hok
      by (symmetry; apply Nat.ltb_lt; exact Hshort).
    discriminate. }
  split; [exact HL | ].
  rewrite (open_envelope_eq secret ct HL Hmax) in Hok. cbn [result snd] in Hok.
  destruct (unseal secret ct) as [[hmac pt'] | | | ] eqn:Hu; try discriminate.
  rewrite result_bind, makeHMAC_eq in Hok. cbn [result snd] in Hok.
  rewrite result_bind in Hok. cbn [result snd emit] in Hok.
  rewrite result_bind, uint256_ne_run_result in Hok. cbn [result snd] in Hok.
  destruct (uint256_ne hmac _) eqn:E; [discriminate | ].
  injection Hok as ->.
  destruct (unseal_ok_inv secret ct hmac pt HL Hu) as (_ & Hh & _).
  destruct (list_eq_dec N.eq_dec hmac
              (HMAC_SHA256 (firstn ECIES_KEY_LENGTH secret) pt)) as [-> | Hd];
    [reflexivity | ].
  apply uint256_ne_true in Hd; [congruence | ].
  rewrite Hh, HMAC_SHA256_length. reflexivity.
Qed.

End Reading.

(** ** The envelope, sealed and opened *)

Section Sealed.
Context {P : Primitives} {HP : PrimitivesOk P}.

Lemma cbc_decrypt_encrypt key iv x :
  (length x mod 16 = 0)%nat ->
  cbc_decrypt key iv (cbc_encrypt key iv x) = x.
Proof.
  intros Hmod. unfold cbc_decrypt, cbc_encrypt.
  destruct (div_mod_16 (length x)) as [Hq Hr]. rewrite Hmod in Hq.
  rewrite AES_cbc_encrypt_length.
  replace (16 * (length x / 16) / 16)%nat with (length x / 16)%nat
    by (rewrite Nat.mul_comm, Nat.div_mul; lia).
  rewrite AES_cbc_decrypt_encrypt by lia.
  apply firstn_all2. lia.
Qed.

Lemma padded_length (mac pt : bytes) :
  length mac = 32%nat ->
  (length (mac ++ pt ++ pkcs_padding (length pt)) mod 16 = 0)%nat.
Proof.
  intros Hmac. rewrite !length_app, Hmac, pkcs_padding_length.
  destruct (div_mod_16 (length pt)) as [Hq Hr].
  replace (32 + (length pt + (16 - length pt mod 16)))%nat
    with ((length pt / 16 + 3) * 16)%nat by lia.
  apply Nat.Div0.mod_mul.
Qed.

(** X4.  Whatever [encryptECIES] returns for a pair of keys,
    [decryptECIES] called with the same pair opens to the plaintext: no
    assumption on the keys, the entropy or the size is needed beyond the
    success of the encryption. *)
Theorem X4_same_pair_opens (A B : CKey) (pt : bytes) (entropy : option bytes)
    (ct : bytes) :
  result (encryptECIES A B pt entropy) = Ok ct ->
  result (decryptECIES A B ct) = Ok pt.
Proof.
  intros Hok.
  destruct (encryptECIES_ok_inv A B pt entropy ct Hok)
    as (t & secret & iv & Hsec & -> & Hiv & Hin).
  rewrite (encryptECIES_eq A B pt iv t secret Hsec Hiv Hin) in Hok.
  injection Hok as <-.
  exact (decryptECIES_envelope B A t secret iv pt Hsec Hiv Hin).
Qed.

(** X5.  Two encryptions under the same pair of keys that return the same
    ciphertext were given the same plaintext and drew the same IV. *)
Theorem X5_encryption_injective (A B : CKey) (pt1 pt2 : bytes)
    (e1 e2 : option bytes) (ct : bytes) :
  result (encryptECIES A B pt1 e1) = Ok ct ->
  result (encryptECIES A B pt2 e2) = Ok ct ->
  pt1 = pt2 /\ e1 = e2.
Proof.
  intros H1 H2.
  destruct (encryptECIES_ok A B pt1 e1 ct H1)
    as (t1 & s1 & iv1 & Hs1 & -> & Hiv1 & E1).
  destruct (encryptECIES_ok A B pt2 e2 ct H2)
    as (t2 & s2 & iv2 & Hs2 & -> & Hiv2 & E2).
  rewrite Hs1 in Hs2. injection Hs2 as _ <-.
  rewrite E1 in H1. rewrite E2 in H2. cbn [result snd] in H1, H2.
  injection H1 as H1. injection H2 as H2.
  assert (Hiv : iv1 = iv2).
  { rewrite <- (firstn_app_exact iv1 (skipn 16 (envelope s1 iv1 pt1)) 16 Hiv1).
    rewrite <- (firstn_app_exact iv2 (skipn 16 (envelope s1 iv2 pt2)) 16 Hiv2).
    unfold envelope. cbv zeta.
    rewrite !skipn_app_exact by assumption.
    fold (envelope s1 iv1 pt1). fold (envelope s1 iv2 pt2).
    rewrite H1, H2. reflexivity. }
  subst iv2. split; [ | reflexivity ].
  pose proof (unseal_envelope s1 iv1 pt1 Hiv1) as U1.
  pose proof (unseal_envelope s1 iv1 pt2 Hiv1) as U2.
  rewrite H1 in U1. rewrite H2 in U2. rewrite U1 in U2.
  injection U2 as _ Hpt. exact Hpt.
Qed.

(** X6.  The layout announced above [makeHMAC]: the first 16 bytes of a
    ciphertext are the IV as [RAND_bytes] gave it, unencrypted; the rest,
    deciphered in CBC mode under the secret and that IV, is the HMAC of the
    plaintext, the plaintext, then the padding. *)
Theorem X6_envelope_layout (A B : CKey) (pt : bytes) (entropy : option bytes)
    (ct : bytes) :
  result (encryptECIES A B pt entropy) = Ok ct ->
  exists secret iv,
    result (getECIESSecret A B) = Ok secret
    /\ entropy = Some iv
    /\ firstn ECIES_ENC_BLK_SIZE ct = iv
    /\ cbc_decrypt (firstn ECIES_ENC_KEY_SIZE secret) iv
         (skipn ECIES_ENC_BLK_SIZE ct)
       = HMAC_SHA256 (firstn ECIES_KEY_LENGTH secret) pt
           ++ pt ++ pkcs_padding (length pt).
Proof.
  intros Hok.
  destruct (encryptECIES_ok A B pt entropy ct Hok)
    as (t & secret & iv & Hsec & -> & Hiv & E).
  rewrite E in Hok. injection Hok as <-.
  exists secret, iv. rewrite Hsec.
  split; [reflexivity | split; [reflexivity | ] ].
  unfold envelope, ECIES_ENC_BLK_SIZE. cbv zeta.
  rewrite firstn_app_exact, skipn_app_exact by exact Hiv.
  split; [reflexivity | ].
  apply cbc_decrypt_encrypt, padded_length, HMAC_SHA256_length.
Qed.

(** X7.  When the secret is derived and [RAND_bytes] has nothing to give,
    [encryptECIES] throws "insufficient entropy", after the MAC has been
    computed and before any call of the cipher. *)
Theorem X7_entropy_failure (A B : CKey) (pt secret : bytes) :
  result (getECIESSecret A B) = Ok secret ->
  encryptECIES A B pt None
  = (trace (getECIESSecret A B) ++ hmac_trace (length pt) ++ [EvCall "RAND_bytes"],
     Throw "insufficient entropy").
Proof.
  intros Hsec. unfold encryptECIES.
  rewrite (surjective_M (getECIESSecret A B)), Hsec.
  cbn [trace fst].
  eapply bind_step; [reflexivity | ]. cbv beta.
  f_equal.
  eapply bind_step; [apply makeHMAC_eq | ]. cbv beta.
  reflexivity.
Qed.

(** X8.  Once the secret is derived, a ciphertext of at least 64 bytes, of
    a length an [int] holds, whose length is not a multiple of the block
    size is reported as "plaintext had bad padding". *)
Theorem X8_misaligned_ciphertext (A B : CKey) (ct secret : bytes) :
  result (getECIESSecret A B) = Ok secret ->
  (2 * ECIES_ENC_BLK_SIZE + ECIES_HMAC_SIZE <= length ct)%nat ->
  Z.of_nat (length ct) <= INT_MAX ->
  (length ct mod ECIES_ENC_BLK_SIZE <> 0)%nat ->
  result (decryptECIES A B ct) = Throw "plaintext had bad padding".
Proof.
  intros Hsec HL Hmax Hmod.
  unfold ECIES_ENC_BLK_SIZE, ECIES_HMAC_SIZE in *.
  unfold decryptECIES. rewrite result_bind, Hsec.
  rewrite result_bind, open_envelope_eq by first [exact Hmax | lia].
  cbn [result snd]. unfold unseal. cbv zeta.
  destruct (Nat.eqb_spec (length ct mod 16) 0) as [E | _];
    [contradiction | reflexivity].
Qed.

(** X9.  A ciphertext that [decryptECIES] accepts, of a length an [int]
    holds, has the length that encryption gives to the plaintext returned:
    16 + 16 * ((32 + |plaintext|) / 16 + 1). *)
Theorem X9_accepted_length (A B : CKey) (ct pt : bytes) :
  result (decryptECIES A B ct) = Ok pt ->
  Z.of_nat (length ct) <= INT_MAX ->
  length ct = (ECIES_ENC_BLK_SIZE
               + 16 * ((ECIES_HMAC_SIZE + length pt) / 16 + 1))%nat.
Proof.
  intros Hok Hmax.
  destruct (decryptECIES_ok_inv A B ct pt Hok Hmax) as (t & secret & Hsec & HL & Hu).
  destruct (unseal_ok_inv secret ct _ pt HL Hu) as (Hmod & Hmac & Hplain).
  apply (f_equal (@length N)) in Hplain.
  rewrite cbc_decrypt_length, !length_app, Hmac, pkcs_padding_length,
    length_skipn in Hplain.
  unfold ECIES_ENC_BLK_SIZE, ECIES_HMAC_SIZE.
  destruct (div_mod_16 (length ct)) as [Hq Hr]. rewrite Hmod in Hq.
  destruct (div_mod_16 (length ct - 16)) as [Hq1 Hr1].
  destruct (div_mod_16 (length pt)) as [Hq2 Hr2].
  destruct (div_mod_16 (32 + length pt)) as [Hq3 Hr3].
  lia.
Qed.

End Sealed.

(** ** Acceptance is production *)

Section Resealed.
Context {P : Primitives} {HP : PrimitivesOk P}.
Hypothesis Hperm : AES_permutation P.

(** Encryption undoes decryption, block after block. *)
Lemma AES_cbc_encrypt_decrypt key iv n c :
  (16 * n <= length c)%nat ->
  fst (AES_cbc_encrypt true key iv n (fst (AES_cbc_encrypt false key iv n c)))
  = firstn (16 * n) c.
Proof.
  destruct Hperm as [Hlen Hinv].
  revert iv c. induction n as [ | n IH]; intros iv c Hc; [reflexivity | ].
  cbn [AES_cbc_encrypt].
  set (p := xor_block (AES_decrypt key (firstn 16 c)) iv).
  assert (Hp : length p = 16%nat) by apply xor_block_length.
  specialize (IH (firstn 16 c) (skipn 16 c)).
  destruct (AES_cbc_encrypt false key (firstn 16 c) n (skipn 16 c)) as [ps iv''].
  cbn [fst] in *.
  rewrite (firstn_app_exact p ps 16 Hp), (skipn_app_exact p ps 16 Hp).
  unfold p. rewrite xor_block_involutive by apply Hlen.
  rewrite Hinv by (rewrite length_firstn; lia).
  destruct (AES_cbc_encrypt true key (firstn 16 c) n ps) as [cs iv3] eqn:E.
  cbn [fst] in *.
  rewrite IH by (rewrite length_skipn; lia).
  replace (16 * S n)%nat with (16 + 16 * n)%nat by lia.
  symmetry. apply firstn_add. lia.
Qed.

Lemma cbc_encrypt_decrypt key iv c :
  (length c mod 16 = 0)%nat ->
  cbc_encrypt key iv (cbc_decrypt key iv c) = c.
Proof.
  intros Hmod. unfold cbc_encrypt.
  destruct (div_mod_16 (length c)) as [Hq Hr]. rewrite Hmod in Hq.
  rewrite cbc_decrypt_length.
  replace (16 * (length c / 16) / 16)%nat with (length c / 16)%nat
    by (rewrite Nat.mul_comm, Nat.div_mul; lia).
  unfold cbc_decrypt.
  rewrite AES_cbc_encrypt_decrypt by lia.
  apply firstn_all2. lia.
Qed.

(** X10.  The block cipher being a permutation, for a ciphertext of a
    length an [int] holds (at most [INT_MAX] bytes): [decryptECIES] accepts
    it and returns a plaintext if and only if [encryptECIES], given that
    plaintext, the same keys and the IV found in the first 16 bytes of the
    ciphertext, returns the ciphertext byte for byte. *)
Theorem X10_accepted_is_sealed (A B : CKey) (ct pt : bytes) :
  Z.of_nat (length ct) <= INT_MAX ->
  (result (decryptECIES A B ct) = Ok pt <->
   result (encryptECIES A B pt (Some (firstn ECIES_ENC_BLK_SIZE ct))) = Ok ct).
Proof.
  intros Hmax. split.
  - intros Hok.
    destruct (decryptECIES_ok_inv A B ct pt Hok Hmax)
      as (t & secret & Hsec & HL & Hu).
    destruct (unseal_ok_inv secret ct _ pt HL Hu) as (Hmod & Hmac & Hplain).
    unfold ECIES_ENC_BLK_SIZE.
    assert (Hiv : length (firstn 16 ct) = 16%nat) by (rewrite length_firstn; lia).
    assert (Hbody : (length (skipn 16 ct) mod 16 = 0)%nat).
    { rewrite length_skipn.
      destruct (div_mod_16 (length ct)) as [Hq Hr]. rewrite Hmod in Hq.
      replace (length ct - 16)%nat with ((length ct / 16 - 1) * 16)%nat by lia.
      apply Nat.Div0.mod_mul. }
    assert (Hin : Z.of_nat (length pt) + 64 <= INT_MAX).
    { pose proof (f_equal (@length N) Hplain) as Hl.
      rewrite cbc_decrypt_length, !length_app, Hmac, pkcs_padding_length,
        length_skipn in Hl.
      destruct (div_mod_16 (length ct)) as [Hq Hr]. rewrite Hmod in Hq.
      destruct (div_mod_16 (length ct - 16)) as [Hq1 Hr1].
      destruct (div_mod_16 (length pt)) as [Hq2 Hr2].
      unfold INT_MAX in *. lia. }
    rewrite (encryptECIES_eq A B pt (firstn 16 ct) t secret Hsec Hiv Hin).
    cbn [result snd]. f_equal.
    unfold envelope. cbv zeta.
    change ECIES_ENC_KEY_SIZE with 32%nat in *.
    rewrite <- Hplain, cbc_encrypt_decrypt by exact Hbody.
    apply firstn_skipn.
  - intros Hok.
    destruct (encryptECIES_ok_inv A B pt _ ct Hok)
      as (t & secret & iv & Hsec & Heq & Hiv & Hin).
    injection Heq as <-.
    rewrite (encryptECIES_eq A B pt _ t secret Hsec Hiv Hin) in Hok.
    cbn [result snd] in Hok. injection Hok as Hct. rewrite <- Hct at 1.
    exact (decryptECIES_envelope B A t secret _ pt Hsec Hiv Hin).
Qed.

End Resealed.

(** ** The first two blocks *)

Section Head.
Context {P : Primitives} {HP : PrimitivesOk P}.

(** What the envelope opens to when its first 32 bytes (the IV and the
    first block under the cipher) have been replaced by [iv'] and [c1']:
    the plaintext is intact, the MAC found is not the one sealed. *)
Lemma unseal_other_head secret iv pt iv' c1' :
  length iv = 16%nat -> length iv' = 16%nat -> length c1' = 16%nat ->
  let key := firstn ECIES_ENC_KEY_SIZE secret in
  let mac := HMAC_SHA256 (firstn ECIES_KEY_LENGTH secret) pt in
  let c1 := AES_encrypt key (xor_block (firstn 16 mac) iv) in
  firstn 32 (envelope secret iv pt) = iv ++ c1
  /\ unseal secret ((iv' ++ c1') ++ skipn 32 (envelope secret iv pt))
     = Ok (xor_block (AES_decrypt key c1') iv'
             ++ xor_block (xor_block (skipn 16 mac) c1) c1', pt).
Proof.
  intros Hiv Hiv' Hc1'. cbv zeta.
  pose proof (envelope_length secret iv pt Hiv) as Hlen.
  set (key := firstn ECIES_ENC_KEY_SIZE secret).
  set (mac := HMAC_SHA256 (firstn ECIES_KEY_LENGTH secret) pt).
  assert (Hmac : length mac = 32%nat) by apply HMAC_SHA256_length.
  set (tail := pt ++ pkcs_padding (length pt)).
  destruct (div_mod_16 (length pt)) as [Hn Hr].
  set (q := (length pt / 16)%nat) in *.
  assert (Htail : length tail = (16 * (q + 1))%nat).
  { unfold tail. rewrite length_app, pkcs_padding_length. lia. }
  set (c1 := AES_encrypt key (xor_block (firstn 16 mac) iv)).
  set (c2 := AES_encrypt key (xor_block (skipn 16 mac) c1)).
  set (rest := fst (AES_cbc_encrypt true key c2 (q + 1) tail)).
  assert (Hc1 : length c1 = 16%nat) by apply AES_encrypt_length.
  assert (Hc2 : length c2 = 16%nat) by apply AES_encrypt_length.
  assert (Hrest : length rest = (16 * (q + 1))%nat)
    by apply AES_cbc_encrypt_length.
  assert (Henv : envelope secret iv pt = iv ++ c1 ++ c2 ++ rest).
  { unfold envelope. cbv zeta. fold key mac tail. f_equal.
    unfold cbc_encrypt.
    replace (length (mac ++ tail) / 16)%nat with (S (S (q + 1))).
    2:{ rewrite length_app, Hmac, Htail.
        replace (32 + 16 * (q + 1))%nat with ((q + 3) * 16)%nat by lia.
        rewrite Nat.div_mul by lia. lia. }
    cbn [AES_cbc_encrypt].
    rewrite (firstn_app_le mac tail 16) by lia.
    rewrite (skipn_app_le mac tail 16) by lia.
    fold c1.
    rewrite (firstn_app_exact (skipn 16 mac) tail 16)
      by (rewrite length_skipn; lia).
    rewrite (skipn_app_exact (skipn 16 mac) tail 16)
      by (rewrite length_skipn; lia).
    fold c2. unfold rest.
    destruct (AES_cbc_encrypt true key c2 (q + 1) tail) as [os iv3].
    reflexivity. }
  split.
  { rewrite Henv, app_assoc. apply firstn_app_exact.
    rewrite length_app. lia. }
  rewrite Henv.
  replace (skipn 32 (iv ++ c1 ++ c2 ++ rest)) with (c2 ++ rest).
  2:{ rewrite app_assoc. symmetry. apply skipn_app_exact.
      rewrite length_app. lia. }
  unfold unseal. cbv zeta. fold key.
  replace (length ((iv' ++ c1') ++ c2 ++ rest) mod 16 =? 0)%nat with true.
  2:{ symmetry. apply Nat.eqb_eq. rewrite !length_app, Hiv', Hc1', Hc2, Hrest.
      replace (16 + 16 + (16 + 16 * (q + 1)))%nat with ((q + 4) * 16)%nat by lia.
      apply Nat.Div0.mod_mul. }
  rewrite <- (app_assoc iv' c1').
  rewrite firstn_app_exact, skipn_app_exact by exact Hiv'.
  unfold cbc_decrypt.
  replace (length (c1' ++ c2 ++ rest) / 16)%nat with (S (S (q + 1))).
  2:{ rewrite !length_app, Hc1', Hc2, Hrest.
      replace (16 + (16 + 16 * (q + 1)))%nat with ((q + 3) * 16)%nat by lia.
      rewrite Nat.div_mul by lia. lia. }
  cbn [AES_cbc_encrypt].
  rewrite (firstn_app_exact c1' _ 16 Hc1'), (skipn_app_exact c1' _ 16 Hc1').
  rewrite (firstn_app_exact c2 _ 16 Hc2), (skipn_app_exact c2 _ 16 Hc2).
  pose proof (AES_cbc_decrypt_encrypt key c2 (q + 1) tail ltac:(lia)) as Hdec.
  fold rest in Hdec. rewrite firstn_all2 in Hdec by lia.
  destruct (AES_cbc_encrypt false key c2 (q + 1) rest) as [ps iv3].
  cbn [fst] in *. subst ps.
  set (m1 := xor_block (AES_decrypt key c1') iv').
  set (m2 := xor_block (AES_decrypt key c2) c1').
  assert (Hm1 : length m1 = 16%nat) by apply xor_block_length.
  assert (Hm2 : length m2 = 16%nat) by apply xor_block_length.
  rewrite app_assoc.
  rewrite firstn_app_exact, skipn_app_exact by (rewrite length_app; lia).
  unfold tail. rewrite pkcs_unpad_padding.
  unfold m2, c2. rewrite AES_decrypt_encrypt by apply xor_block_length.
  reflexivity.
Qed.

End Head.

Section HeadTamper.
Context {P : Primitives} {HP : PrimitivesOk P}.

(** X11.  A ciphertext made under valid keys whose first 32 bytes, the IV
    and the first block under the cipher, have been replaced by any other
    32 bytes is rejected with "plaintext had bad hmac". *)
Theorem X11_head_tamper_detected (A B : CKey) (pt iv head : bytes) :
  valid_key A -> valid_key B -> has_private A || has_private B = true ->
  length iv = ECIES_ENC_BLK_SIZE ->
  length head = (2 * ECIES_ENC_BLK_SIZE)%nat ->
  Z.of_nat (length pt) <= max_plaintext_size ->
  exists ct,
    result (encryptECIES A B pt (Some iv)) = Ok ct
    /\ (head <> firstn (2 * ECIES_ENC_BLK_SIZE) ct ->
        result (decryptECIES B A (head ++ skipn (2 * ECIES_ENC_BLK_SIZE) ct))
        = Throw "plaintext had bad hmac").
Proof.
  intros VA VB Hpriv Hiv Hhead Hpt.
  change (2 * ECIES_ENC_BLK_SIZE)%nat with 32%nat in *.
  unfold ECIES_ENC_BLK_SIZE in *.
  destruct (encryptECIES_valid A B pt iv VA VB Hpriv Hiv Hpt)
    as (secret & Hsec & Henc).
  exists (envelope secret iv pt). split; [rewrite Henc; reflexivity | ].
  intros Hne.
  pose proof (envelope_length secret iv pt Hiv) as Hlen.
  unfold max_plaintext_size, INT_MAX in Hpt.
  destruct (div_mod_16 (32 + length pt)) as [Hn Hr].
  set (iv' := firstn 16 head). set (c1' := skipn 16 head).
  assert (Hiv' : length iv' = 16%nat) by (unfold iv'; rewrite length_firstn; lia).
  assert (Hc1' : length c1' = 16%nat) by (unfold c1'; rewrite length_skipn; lia).
  assert (Hsplit : head = iv' ++ c1') by (symmetry; apply firstn_skipn).
  destruct (unseal_other_head secret iv pt iv' c1' Hiv Hiv' Hc1') as [Hfirst Hu].
  cbv zeta in Hfirst, Hu. rewrite <- Hsplit in Hu.
  unfold decryptECIES.
  rewrite result_bind, Hsec. cbn [result snd].
  rewrite result_bind, open_envelope_eq
    by (rewrite length_app, length_skipn, Hlen, Hhead; unfold INT_MAX; lia).
  cbn [result snd]. rewrite Hu.
  rewrite result_bind, makeHMAC_eq. cbn [result snd].
  rewrite result_bind. cbn [result snd emit].
  rewrite result_bind, uint256_ne_run_result. cbn [result snd].
  set (key := firstn ECIES_ENC_KEY_SIZE secret) in *.
  set (mac := HMAC_SHA256 (firstn ECIES_KEY_LENGTH secret) pt) in *.
  set (c1 := AES_encrypt key (xor_block (firstn 16 mac) iv)) in *.
  assert (Hmac : length mac = 32%nat) by apply HMAC_SHA256_length.
  assert (Hc1 : length c1 = 16%nat) by apply AES_encrypt_length.
  replace (uint256_ne _ mac) with true; [reflexivity | ].
  symmetry. apply uint256_ne_true.
  - rewrite length_app, !xor_block_length. lia.
  - intros Heq. apply Hne. rewrite Hfirst, Hsplit.
    assert (H1 := f_equal (firstn 16) Heq).
    assert (H2 := f_equal (skipn 16) Heq).
    rewrite firstn_app_exact in H1 by apply xor_block_length.
    rewrite skipn_app_exact in H2 by apply xor_block_length.
    assert (Ec : c1 = c1').
    { apply (xor_block_fixed (skipn 16 mac) c1 c1' Hc1 Hc1').
      rewrite xor_block_zero by (rewrite length_skipn; lia). exact H2. }
    subst c1'. rewrite <- Ec in H1.
    unfold c1 in H1 at 1.
    rewrite AES_decrypt_encrypt in H1 by apply xor_block_length.
    assert (Ei : iv = iv').
    { apply (xor_block_fixed (firstn 16 mac) iv iv' Hiv Hiv').
      rewrite xor_block_zero by (rewrite length_firstn; lia). exact H1. }
    rewrite <- Ei, <- Ec. reflexivity.
Qed.

End HeadTamper.

(** ** Return codes of the cipher *)

Section ReturnCodes.
Context {P : Primitives}.

(** [EVP_EncryptUpdate] returns 0 or 1, never a negative value. *)
Lemma EVP_EncryptUpdate_code ctx inp inl :
  (fst (fst (fst (EVP_EncryptUpdate ctx inp inl))) <? 0) = false.
Proof.
  unfold EVP_EncryptUpdate.
  repeat first
    [ progress cbn [fst snd]
    | match goal with
      | |- context [if ?b then _ else _] => destruct b
      | |- context [match ?x with (_, _) => _ end] => destruct x
      end ];
    reflexivity.
Qed.

Lemma EVP_EncryptFinal_ex_code ctx :
  (fst (fst (fst (EVP_EncryptFinal_ex ctx))) <? 0) = false.
Proof.
  unfold EVP_EncryptFinal_ex. cbv zeta.
  destruct (do_cipher _ _ _). reflexivity.
Qed.

Ltac walk_codes :=
  repeat first
    [ rewrite result_bind
    | rewrite front_eq
    | progress unfold write
    | progress cbv beta iota
    | progress cbn [result snd fst emit ret throw negb orb andb Z.eqb Pos.eqb]
    | match goal with
      | |- context [EVP_EncryptUpdate ?c ?i ?l] =>
          let H := fresh "Hcode" in
          pose proof (EVP_EncryptUpdate_code c i l) as H;
          destruct (EVP_EncryptUpdate c i l) as [[[? ?] ?] ?];
          cbn [fst] in H; rewrite H
      | |- context [EVP_EncryptFinal_ex ?c] =>
          let H := fresh "Hcode" in
          pose proof (EVP_EncryptFinal_ex_code c) as H;
          destruct (EVP_EncryptFinal_ex c) as [[[? ?] ?] ?];
          cbn [fst] in H; rewrite H
      | |- context [if ?b then _ else _] => destruct b
      | |- context [match ?x with (_, _) => _ end] => destruct x
      | |- context [match result ?m with _ => _ end] =>
          let t := fresh "t" in destruct m as [t [ ? | ? | | ]]
      end ].

(** X12.  [encryptECIES] never throws the exception with the empty
    message: the three tests [< 0] on the return value of
    [EVP_EncryptUpdate] and [EVP_EncryptFinal_ex] never fire, these
    functions returning 0 or 1. *)
Theorem X12_no_empty_message (A B : CKey) (pt : bytes) (entropy : option bytes) :
  result (encryptECIES A B pt entropy) <> Throw "".
Proof.
  unfold encryptECIES. rewrite result_bind.
  destruct (result (getECIESSecret A B)) as [secret | w | | ] eqn:Hs;
    try discriminate.
  2:{ intros [= ->].
      destruct (getECIESSecret_throws A B _ Hs); discriminate. }
  rewrite result_bind.
  destruct (result (makeHMAC secret pt)) as [hmac | w | | ] eqn:Hm;
    try discriminate.
  2:{ exfalso. exact (makeHMAC_throws _ _ _ Hm). }
  unfold RAND_bytes, EVP_EncryptInit_ex, EVP_CipherInit_ex, assert.
  walk_codes; discriminate.
Qed.

End ReturnCodes.

(** ** The self-test *)

Lemma vector_ne_same (a : bytes) : vector_ne a a = false.
Proof.
  unfold vector_ne. destruct (list_eq_dec N.eq_dec a a) as [_ | H];
    [reflexivity | exfalso; apply H; reflexivity].
Qed.

Lemma resize_prefix (x y : bytes) :
  resize (x ++ y) (length x) = x.
Proof.
  unfold resize. rewrite firstn_app_exact by reflexivity.
  rewrite length_app.
  replace (length x - (length x + length y))%nat with 0%nat by lia.
  apply app_nil_r.
Qed.

Section SelfTest.
Context {P : Primitives} {HP : PrimitivesOk P}.

(** The loop, over any range of the counter that the random source serves. *)
Lemma checkECIES_loop_ok (S R : CKey) (rand : nat -> option bytes) n i :
  valid_key S -> valid_key R -> has_private S = true -> has_private R = true ->
  (forall j, (i <= j < i + n)%nat ->
     exists m iv, rand (2 * j)%nat = Some m /\ length m = (j mod 3000)%nat
                  /\ rand (2 * j + 1)%nat = Some iv /\ length iv = 16%nat) ->
  result (checkECIES_loop n i S R (public_part S) (public_part R) rand) = Ok true.
Proof.
  intros VS VR HS HR.
  destruct (getECIESSecret_cross S R VS VR HS HR) as (x & _ & Eenc & Edec).
  revert i. induction n as [ | n IH]; intros i Hrand; [reflexivity | ].
  destruct (Hrand i ltac:(lia)) as (m & iv & Hm & Hml & Hv & Hvl).
  pose proof (Nat.mod_upper_bound i 3000 ltac:(lia)) as Hb.
  cbn [checkECIES_loop]. cbv zeta.
  rewrite result_bind, front_eq. cbn [result snd].
  rewrite result_bind. cbn [result snd emit].
  rewrite Hm, Hv. unfold RAND_bytes.
  rewrite <- Hml, Nat.eqb_refl.
  rewrite result_bind, write_in_bounds by (rewrite repeat_length; lia).
  cbn [result snd negb Z.eqb Pos.eqb].
  rewrite firstn_0. cbn [app]. rewrite resize_prefix.
  assert (Hin : Z.of_nat (length m) + 64 <= INT_MAX) by (unfold INT_MAX; lia).
  rewrite result_bind.
  rewrite (encryptECIES_eq S (public_part R) m iv _ _ Eenc Hvl Hin).
  cbn [result snd].
  rewrite result_bind.
  rewrite (decryptECIES_envelope (public_part S) R _ _ iv m Edec Hvl Hin).
  rewrite vector_ne_same.
  apply IH. intros j Hj. apply Hrand. lia.
Qed.

(** X13.  [checkECIES] returns true: with two valid key pairs and a
    random source that delivers what each call of [RAND_bytes] asks, the
    30000 messages, of 0 to 2999 bytes, all come back from decryption as
    they were. *)
Theorem X13_self_test_passes (S R : CKey) (rand : nat -> option bytes) :
  valid_key S -> valid_key R -> has_private S = true -> has_private R = true ->
  (forall j, (j < checkECIES_rounds)%nat ->
     exists m iv, rand (2 * j)%nat = Some m /\ length m = (j mod 3000)%nat
                  /\ rand (2 * j + 1)%nat = Some iv
                  /\ length iv = ECIES_ENC_BLK_SIZE) ->
  result (checkECIES S R rand) = Ok true.
Proof.
  intros VS VR HS HR Hrand. unfold checkECIES.
  apply checkECIES_loop_ok; try assumption.
  intros j Hj. apply Hrand. lia.
Qed.

End SelfTest.

(** ** The reports of the secret derivation *)

Section SecretFacts.
Context {P : Primitives}.

Lemma getECIESSecret_public_part (A B : CKey) :
  has_private A = true ->
  getECIESSecret A (public_part B) = getECIESSecret A B.
Proof.
  unfold has_private, public_part, getECIESSecret, EC_KEY_get0_private_key,
    EC_KEY_get0_public_key.
  destruct (pkey A) as [a | ]; [ | discriminate ].
  destruct (pkey B) as [b | ]; [ | reflexivity ].
  intros Ha. cbn [pkey]. rewrite Ha. reflexivity.
Qed.

(** X14.  A key that holds a private scalar uses the other key through
    its public point only: the secret, the ciphertexts and the answers of
    decryption are the same whether the other key carries its private
    scalar or not. *)
Theorem X14_peer_scalar_unused (A B : CKey) :
  has_private A = true ->
  getECIESSecret A (public_part B) = getECIESSecret A B
  /\ (forall pt entropy,
        encryptECIES A (public_part B) pt entropy = encryptECIES A B pt entropy)
  /\ (forall ct, decryptECIES A (public_part B) ct = decryptECIES A B ct).
Proof.
  intros HA.
  pose proof (getECIESSecret_public_part A B HA) as E.
  split; [exact E | split ].
  - intros pt entropy. unfold encryptECIES. rewrite E. reflexivity.
  - intros ct. unfold decryptECIES. rewrite E. reflexivity.
Qed.


End SecretFacts.

(** * The claims at work on the toy instance *)

#[local] Existing Instance toy.

Lemma toy_sender_valid : valid_key toy_sender.
Proof. exists (mkEC_KEY (Some 3) (Some 21)). split; reflexivity. Qed.

Lemma toy_recipient_valid : valid_key toy_recipient.
Proof. exists (mkEC_KEY (Some 5) (Some 35)). split; reflexivity. Qed.

Lemma toy_recipient_pub_valid : valid_key toy_recipient_pub.
Proof. exists (mkEC_KEY None (Some 35)). split; reflexivity. Qed.

Lemma toy_message_fits : Z.of_nat (length toy_message) <= max_plaintext_size.
Proof. unfold max_plaintext_size, INT_MAX. vm_compute. discriminate. Qed.

(** C1 on a 37-byte message from the sender to the recipient's public key. *)
Lemma C1_witness :
  exists ct,
    result (encryptECIES toy_sender toy_recipient_pub toy_message (Some toy_iv)) = Ok ct
    /\ result (decryptECIES toy_recipient_pub toy_sender ct) = Ok toy_message.
Proof.
  apply (@C1_round_trip toy toy_ok toy_sender toy_recipient_pub toy_message toy_iv).
  - exact toy_sender_valid.
  - exact toy_recipient_pub_valid.
  - reflexivity.
  - reflexivity.
  - exact toy_message_fits.
Defined.

(** C2, as stated, fails: the envelope of the empty plaintext has 64 bytes,
    not 48. *)
Lemma C2_counterexample :
  exists ct,
    result (encryptECIES toy_sender toy_recipient_pub [] (Some toy_iv)) = Ok ct
    /\ length ct = 64%nat /\ length ct <> 48%nat.
Proof.
  eexists. split; [vm_compute; reflexivity | ].
  split; [reflexivity | discriminate].
Qed.

Lemma C2_witness :
  exists ct,
    result (encryptECIES toy_sender toy_recipient_pub [] (Some toy_iv)) = Ok ct
    /\ length ct = 64%nat.
Proof.
  destruct (@C2_minimum_envelope toy toy_ok) as (Hempty & _ & Hsome).
  destruct (Hsome toy_sender toy_recipient_pub toy_iv
              toy_sender_valid toy_recipient_pub_valid eq_refl eq_refl)
    as [ct Hct].
  exists ct. split; [exact Hct | exact (Hempty _ _ _ _ Hct)].
Defined.

(** C3, as stated, fails twice: with two public-only keys a short
    ciphertext is refused for the missing key, not for its length; and with
    a usable key pair the key agreement has run when the length is checked. *)
Lemma C3_counterexample :
  result (decryptECIES toy_recipient_pub toy_sender_pub []) = Throw "no private key"
  /\ error_kind "no private key" = MissingKeyError
  /\ ~ fails_with (result (decryptECIES toy_recipient_pub toy_sender_pub []))
         MalformedCiphertextError
  /\ decryptECIES toy_recipient toy_sender_pub []
     = ([EvCall "ECDH_compute_key"], Throw "ciphertext too short").
Proof.
  split; [reflexivity | split; [reflexivity | split; [ | reflexivity ] ] ].
  intros (what & Hwhat & Hkind). vm_compute in Hwhat.
  injection Hwhat as <-. discriminate Hkind.
Qed.

Lemma C3_witness :
  result (decryptECIES toy_recipient toy_sender_pub (repeat 7%N 63))
  = Throw "ciphertext too short".
Proof.
  refine (proj1 (proj1 (proj2 (@C3_short_ciphertext_rejected toy toy_recipient
                                 toy_sender_pub (repeat 7%N 63) _)) _ _)).
  - vm_compute. lia.
  - vm_compute. reflexivity.
Defined.

(** C5 at work.  The envelope of [toy_message] is authenticated and
    returned; with one byte of its IV changed the two MACs differ and the
    run ends in "plaintext had bad hmac"; in both runs the comparison
    examines the same 32 positions. *)
Lemma C5_witness :
  result (decryptECIES toy_recipient toy_sender_pub toy_ciphertext) = Ok toy_message
  /\ result (decryptECIES toy_recipient toy_sender_pub toy_tampered)
     = Throw "plaintext had bad hmac"
  /\ (exists t, trace (decryptECIES toy_recipient toy_sender_pub toy_ciphertext)
                = t ++ EvCompare :: map EvByte (seq 0 32))
  /\ (exists t, trace (decryptECIES toy_recipient toy_sender_pub toy_tampered)
                = t ++ EvCompare :: map EvByte (seq 0 32)).
Proof.
  destruct (@C5_mac_decides toy toy_recipient toy_sender_pub toy_ciphertext)
    as (Hok & _ & _ & Htr).
  destruct (@C5_mac_decides toy toy_recipient toy_sender_pub toy_tampered)
    as (_ & Hbad & _ & Htr').
  split; [ | split; [ | split ] ].
  - apply Hok. do 2 eexists.
    split; [vm_compute; reflexivity | split; vm_compute; reflexivity].
  - apply Hbad. do 4 eexists.
    split; [vm_compute; reflexivity | ].
    split; [vm_compute; reflexivity | ].
    split; [vm_compute; reflexivity | vm_compute; discriminate].
  - eexists. erewrite Htr by (vm_compute; reflexivity).
    rewrite !app_assoc, <- (app_assoc _ [EvCompare]). reflexivity.
  - eexists. erewrite Htr' by (vm_compute; reflexivity).
    rewrite !app_assoc, <- (app_assoc _ [EvCompare]). reflexivity.
Defined.

Lemma C6_witness :
  result (decryptECIES toy_recipient toy_sender_pub (repeat 7%N 64))
  = Throw "plaintext had bad padding".
Proof.
  refine (proj1 (proj1 (@C6_padding_before_mac toy toy_recipient toy_sender_pub
                          (repeat 7%N 64)) _ _ _)).
  - vm_compute. reflexivity.
  - vm_compute. reflexivity.
Defined.

Lemma C7_witness :
  getECIESSecret toy_sender toy_recipient = getECIESSecret toy_recipient toy_sender.
Proof.
  exact (proj1 (@C7_secret_symmetric toy toy_ok toy_sender toy_recipient
                  toy_sender_valid toy_recipient_valid eq_refl)).
Defined.

Lemma C8_witness :
  exists what,
    error_kind what = MissingKeyError
    /\ getECIESSecret toy_sender_pub toy_recipient_pub = ([], Throw what)
    /\ (forall pt entropy,
          encryptECIES toy_sender_pub toy_recipient_pub pt entropy = ([], Throw what))
    /\ (forall ct, decryptECIES toy_sender_pub toy_recipient_pub ct = ([], Throw what)).
Proof.
  apply (@C8_missing_key_rejected toy toy_sender_pub toy_recipient_pub);
    reflexivity.
Defined.

Lemma C9_witness :
  exists ct,
    result (encryptECIES toy_sender toy_recipient_pub toy_message (Some toy_iv)) = Ok ct
    /\ length ct = 96%nat.
Proof.
  destruct (result (encryptECIES toy_sender toy_recipient_pub toy_message
                      (Some toy_iv))) as [ct | | | ] eqn:E;
    try (vm_compute in E; discriminate E).
  exists ct. split; [reflexivity | ].
  exact (@C9_ciphertext_length toy toy_ok toy_sender toy_recipient_pub
           toy_message (Some toy_iv) ct E).
Defined.

Lemma C10_witness :
  exists ct,
    result (encryptECIES toy_sender toy_recipient_pub [] (Some toy_iv)) = Ok ct
    /\ In (EvFront "data" 0)
          (trace (encryptECIES toy_sender toy_recipient_pub [] (Some toy_iv)))
    /\ In (EvFront "plaintext" 0)
          (trace (encryptECIES toy_sender toy_recipient_pub [] (Some toy_iv))).
Proof.
  apply (proj2 (proj2 (@C10_front_of_empty toy toy_ok))).
  - exact toy_sender_valid.
  - exact toy_recipient_pub_valid.
  - reflexivity.
  - reflexivity.
Defined.

Lemma X1_witness :
  exists ct,
    result (encryptECIES toy_sender (public_part toy_recipient) toy_message
              (Some toy_iv)) = Ok ct
    /\ result (decryptECIES toy_recipient (public_part toy_sender) ct) = Ok toy_message.
Proof.
  apply (@X1_self_test_round_trip toy toy_ok toy_sender toy_recipient toy_message toy_iv).
  - exact toy_sender_valid.
  - exact toy_recipient_valid.
  - reflexivity.
  - reflexivity.
  - reflexivity.
  - exact toy_message_fits.
Defined.

Lemma X2_witness :
  exists ct,
    result (encryptECIES toy_sender toy_recipient_pub toy_message (Some toy_iv)) = Ok ct
    /\ result (decryptECIES toy_recipient_pub toy_sender
                 ((101 :: tl toy_iv)%N ++ skipn ECIES_ENC_BLK_SIZE ct))
       = Throw "plaintext had bad hmac".
Proof.
  apply (@X2_iv_tamper_detected toy toy_ok toy_sender toy_recipient_pub toy_message
           toy_iv (101 :: tl toy_iv)%N).
  - exact toy_sender_valid.
  - exact toy_recipient_pub_valid.
  - reflexivity.
  - reflexivity.
  - reflexivity.
  - vm_compute. discriminate.
  - exact toy_message_fits.
Defined.

Lemma X3_witness :
  result (decryptECIES toy_recipient toy_sender_pub (repeat 7%N 64))
    = Throw "plaintext had bad padding"
  \/ result (decryptECIES toy_recipient toy_sender_pub (repeat 7%N 64))
    = Throw "plaintext had bad hmac"
  \/ exists pt,
       result (decryptECIES toy_recipient toy_sender_pub (repeat 7%N 64)) = Ok pt
       /\ unseal (toy_digest [105%N]) (repeat 7%N 64)
          = Ok (HMAC_SHA256 (firstn ECIES_KEY_LENGTH (toy_digest [105%N])) pt, pt).
Proof.
  apply (@X3_decrypt_outcomes toy toy_ok toy_recipient toy_sender_pub
           (repeat 7%N 64) (toy_digest [105%N])).
  - vm_compute. reflexivity.
  - vm_compute. lia.
  - unfold INT_MAX. vm_compute. discriminate.
Defined.

Lemma toy_permutation : AES_permutation toy.
Proof.
  split; unfold toy; cbn [AES_encrypt AES_decrypt].
  - intros k b. apply xor_block_length.
  - intros k b Hb. apply xor_block_involutive. exact Hb.
Qed.

Lemma toy_ciphertext_fits : Z.of_nat (length toy_ciphertext) <= INT_MAX.
Proof. unfold INT_MAX. vm_compute. discriminate. Qed.

(** X4 on the ciphertext the sender makes: the sender's own call of
    [decryptECIES] with the same two keys opens it. *)
Lemma X4_witness :
  result (decryptECIES toy_sender toy_recipient_pub toy_ciphertext) = Ok toy_message.
Proof.
  apply (@X4_same_pair_opens toy toy_ok toy_sender toy_recipient_pub toy_message
           (Some toy_iv) toy_ciphertext).
  vm_compute. reflexivity.
Defined.

Lemma X5_witness : toy_message = toy_message /\ Some toy_iv = Some toy_iv.
Proof.
  apply (@X5_encryption_injective toy toy_ok toy_sender toy_recipient_pub
           toy_message toy_message (Some toy_iv) (Some toy_iv) toy_ciphertext);
    vm_compute; reflexivity.
Defined.

Lemma X6_witness :
  exists secret iv,
    result (getECIESSecret toy_sender toy_recipient_pub) = Ok secret
    /\ Some toy_iv = Some iv
    /\ firstn ECIES_ENC_BLK_SIZE toy_ciphertext = iv
    /\ cbc_decrypt (firstn ECIES_ENC_KEY_SIZE secret) iv
         (skipn ECIES_ENC_BLK_SIZE toy_ciphertext)
       = HMAC_SHA256 (firstn ECIES_KEY_LENGTH secret) toy_message
           ++ toy_message ++ pkcs_padding (length toy_message).
Proof.
  apply (@X6_envelope_layout toy toy_ok toy_sender toy_recipient_pub toy_message
           (Some toy_iv) toy_ciphertext).
  vm_compute. reflexivity.
Defined.

Lemma X7_witness :
  encryptECIES toy_sender toy_recipient_pub toy_message None
  = (trace (getECIESSecret toy_sender toy_recipient_pub)
       ++ hmac_trace (length toy_message) ++ [EvCall "RAND_bytes"],
     Throw "insufficient entropy").
Proof.
  apply (@X7_entropy_failure toy toy_ok toy_sender toy_recipient_pub toy_message
           (toy_digest [105%N])).
  vm_compute. reflexivity.
Defined.

(** X8 on 65 bytes. *)
Lemma X8_witness :
  result (decryptECIES toy_recipient toy_sender_pub (repeat 7%N 65))
  = Throw "plaintext had bad padding".
Proof.
  apply (@X8_misaligned_ciphertext toy toy_recipient toy_sender_pub
           (repeat 7%N 65) (toy_digest [105%N])).
  - vm_compute. reflexivity.
  - vm_compute. lia.
  - unfold INT_MAX. vm_compute. discriminate.
  - vm_compute. discriminate.
Defined.

Lemma X9_witness :
  length toy_ciphertext
  = (ECIES_ENC_BLK_SIZE + 16 * ((ECIES_HMAC_SIZE + length toy_message) / 16 + 1))%nat.
Proof.
  apply (@X9_accepted_length toy toy_ok toy_recipient toy_sender_pub
           toy_ciphertext toy_message).
  - vm_compute. reflexivity.
  - exact toy_ciphertext_fits.
Defined.

Lemma X10_witness :
  result (encryptECIES toy_recipient toy_sender_pub toy_message
            (Some (firstn ECIES_ENC_BLK_SIZE toy_ciphertext)))
  = Ok toy_ciphertext.
Proof.
  apply (proj1 (@X10_accepted_is_sealed toy toy_ok toy_permutation toy_recipient
                  toy_sender_pub toy_ciphertext toy_message toy_ciphertext_fits)).
  vm_compute. reflexivity.
Defined.

(** X11 with 32 bytes of value 9 in front. *)
Lemma X11_witness :
  exists ct,
    result (encryptECIES toy_sender toy_recipient_pub toy_message (Some toy_iv)) = Ok ct
    /\ (repeat 9%N 32 <> firstn (2 * ECIES_ENC_BLK_SIZE) ct ->
        result (decryptECIES toy_recipient_pub toy_sender
                  (repeat 9%N 32 ++ skipn (2 * ECIES_ENC_BLK_SIZE) ct))
        = Throw "plaintext had bad hmac").
Proof.
  apply (@X11_head_tamper_detected toy toy_ok toy_sender toy_recipient_pub
           toy_message toy_iv (repeat 9%N 32)).
  - exact toy_sender_valid.
  - exact toy_recipient_pub_valid.
  - reflexivity.
  - reflexivity.
  - reflexivity.
  - exact toy_message_fits.
Defined.

Lemma toy_rand_serves (j : nat) :
  (j < checkECIES_rounds)%nat ->
  exists m iv,
    toy_rand (2 * j) = Some m /\ length m = (j mod 3000)%nat
    /\ toy_rand (2 * j + 1) = Some iv /\ length iv = ECIES_ENC_BLK_SIZE.
Proof.
  intros _. exists (repeat 0%N (j mod 3000)), toy_iv. unfold toy_rand.
  rewrite Nat.even_mul. cbn [Nat.even orb].
  rewrite (Nat.mul_comm 2 j), Nat.div_mul by lia.
  replace (j * 2 + 1)%nat with (1 + 2 * j)%nat by lia.
  rewrite Nat.even_add_mul_2. cbn [Nat.even].
  repeat split. apply repeat_length.
Qed.

Lemma X13_witness :
  result (checkECIES toy_sender toy_recipient toy_rand) = Ok true.
Proof.
  apply (@X13_self_test_passes toy toy_ok toy_sender toy_recipient toy_rand).
  - exact toy_sender_valid.
  - exact toy_recipient_valid.
  - reflexivity.
  - reflexivity.
  - exact toy_rand_serves.
Defined.

Lemma X14_witness :
  getECIESSecret toy_sender (public_part toy_recipient)
  = getECIESSecret toy_sender toy_recipient
  /\ (forall pt entropy,
        encryptECIES toy_sender (public_part toy_recipient) pt entropy
        = encryptECIES toy_sender toy_recipient pt entropy)
  /\ (forall ct, decryptECIES toy_sender (public_part toy_recipient) ct
                 = decryptECIES toy_sender toy_recipient ct).
Proof.
  apply (@X14_peer_scalar_unused toy toy_sender toy_recipient). reflexivity.
Defined.

